(** * bitcraft_mercantile: the arbitrage pipeline of [src/app/main.py]

    A shallow embedding of the data-processing stages of [main()] and the
    properties its specification states about them.

    Conventions of the embedding.
    - A pandas DataFrame is a list of rows.  While the pipeline builds
      [full_df] a row is a record whose fields are the columns; the table
      the Report Assembler handles by column name is a list of named
      values.  Columns holding integers after [astype(int)] are 64-bit: the
      arithmetic pandas performs on them wraps around, which [int64] writes
      out.
    - JSON values read from the API are taken at the type the code uses
      them at: identifiers of claims are strings (they are compared with the
      string cut out of CLAIM_URL), prices, quantities, volumes and
      coordinates are integers.
    - float64 values are [Finite q] for the rational [q] the float holds,
      or one of the three special values.  A float operation gives the
      float64 nearest to the exact result ([to_float64]); the range of the
      exponent is left out, the numbers of the pipeline staying far inside
      it. *)

From Stdlib Require Import ZArith QArith Qround Qabs Qpower Lia.
From Stdlib Require Import Permutation Sorted.
From Stdlib Require Import Reals Qreals Lra.
From Stdlib Require Lqa.
From Stdlib Require Import Ascii String.
From stdpp Require Import base decidable option list strings gmap.

Local Open Scope Z_scope.

(* ===================================================================== *)
(** ** Machine numbers                                                    *)
(* ===================================================================== *)

(** Value of a 64-bit two's complement integer holding [z]. *)
Definition int64 (z : Z) : Z := (z + 2 ^ 63) mod 2 ^ 64 - 2 ^ 63.

Definition in_int64 (z : Z) : Prop := - 2 ^ 63 <= z < 2 ^ 63.

(** float64 values, as far as the pipeline distinguishes them. *)
Inductive float64 : Type :=
  | Finite (q : Q)
  | PosInf
  | NegInf
  | NaN.

Definition is_nan (x : float64) : bool :=
  match x with NaN => true | _ => false end.

Definition is_finite (x : float64) : bool :=
  match x with Finite _ => true | _ => false end.

(** Rounding to the nearest integer, ties to the even one ([np.rint]). *)
Definition rint (q : Q) : Z :=
  let f := Qfloor q in
  match Qcompare (q - inject_Z f) (1 # 2) with
  | Lt => f
  | Gt => f + 1
  | Eq => if Z.even f then f else f + 1
  end.

(** floor(log2 x) of a rational [x > 0]. *)
Definition ilog2 (x : Q) : Z :=
  let d := Z.log2 (Qnum x) - Z.log2 (Z.pos (Qden x)) in
  if Qle_bool (2 ^ d) x then d else d - 1.

(** The float64 nearest to a rational: the nearest multiple of the unit in
    the last of its 53 binary places, the even multiple at a tie. *)
Definition to_float64 (x : Q) : Q :=
  if Qeq_bool x 0 then 0
  else let ulp := (2 ^ (ilog2 (Qabs x) - 52))%Q in
       (inject_Z (rint (x / ulp)) * ulp)%Q.

(** [np.sqrt] on a float64 [x >= 0]: the float64 nearest to the square
    root, which lies between the integer square root [r] of [x / ulp^2]
    and [r + 1] units. *)
Definition float64_sqrt (x : Q) : Q :=
  if Qle_bool x 0 then 0
  else let ulp := (2 ^ (ilog2 x / 2 - 52))%Q in
       let t := (x / (ulp * ulp))%Q in
       let r := Z.sqrt (Qfloor t) in
       let h := (inject_Z r + (1 # 2))%Q in
       (inject_Z (if Qle_bool (h * h) t then r + 1 else r) * ulp)%Q.

(** [astype(int)] on a finite float64: the fraction is cut off. *)
Definition astype_int (x : Q) : Z := Z.quot (Qnum x) (Z.pos (Qden x)).

(** An integer written to a float64 column and read back by
    [astype(int)]: beyond 2^53 in magnitude it comes back rounded. *)
Definition float64_column (z : Z) : Z := astype_int (to_float64 (inject_Z z)).

(** [np.round(x, 2)] on a finite value: [rint(x * 100) / 100], the product
    and the quotient being float64 again. *)
Definition round2 (q : Q) : Q :=
  to_float64 (rint (to_float64 (q * 100)) # 100).

(** [np.round(x, 2)]: the special values pass through. *)
Definition np_round2 (x : float64) : float64 :=
  match x with
  | Finite q => Finite (round2 q)
  | other => other
  end.

(** [n / d] for an int64 series [n] and a float64 series [d]: the integer
    becomes a float64 and pandas divides as IEEE 754 does, raising nothing
    on a zero divisor. *)
Definition truediv (n : Z) (d : float64) : float64 :=
  match d with
  | NaN => NaN
  | PosInf | NegInf => Finite 0
  | Finite q =>
      if Qeq_bool q 0 then
        (if 0 <? n then PosInf else if n <? 0 then NegInf else NaN)
      else Finite (to_float64 (to_float64 (inject_Z n) / q))
  end.

(** [np.round(np.sqrt(s) / 3, 2)] for a Python integer [s >= 0]: [np.sqrt]
    takes [s] as a float64, and the root, the quotient by 3 and the two
    steps of [np.round] are each rounded to float64.  (From 2^64 on
    [np.sqrt] accepts no Python integer and raises.) *)
Definition round2_sqrt_div3 (s : Z) : Q :=
  round2 (to_float64 (float64_sqrt (to_float64 (inject_Z s)) / 3)).

(* ===================================================================== *)
(** ** Data model                                                         *)
(* ===================================================================== *)

(** An entry of the market summary ([item_list]); the fields are the local
    variables [item_name], [item_type], [item_id], [item_volume] the loop
    reads from it. *)
Record market_item : Type := {
  item_name : string;
  item_type : Z;
  item_id : Z;
  item_volume : Z;
}.

(** A raw order of an order book, with the keys [market_cols_0] keeps. *)
Record raw_order : Type := {
  raw_itemId : Z;
  raw_itemType : Z;
  raw_priceThreshold : Z;
  raw_quantity : Z;
  raw_claimEntityId : string;
  raw_claimName : string;
  raw_regionName : string;
}.

(** The answer to [market/{type}/{id}]. *)
Record item_market : Type := {
  buyOrders : list raw_order;
  sellOrders : list raw_order;
}.

(** A row of [all_buys] / [all_sells] once trimmed to [market_cols_0]. *)
Record market_row : Type := {
  itemName : string;
  itemTypeStr : string;
  itemId : Z;
  itemType : Z;
  itemVolume : Z;
  priceThreshold : Z;
  quantity : Z;
  claimEntityId : string;
  claimName : string;
  regionName : string;
}.

#[global] Instance market_item_eq_dec : EqDecision market_item.
Proof. solve_decision. Defined.
#[global] Instance raw_order_eq_dec : EqDecision raw_order.
Proof. solve_decision. Defined.
#[global] Instance market_row_eq_dec : EqDecision market_row.
Proof. solve_decision. Defined.

(* ===================================================================== *)
(** ** Order Book Normalizer (lines 88-140)                               *)
(* ===================================================================== *)

(** Lines 93-99: the type code as a string, [None] for the [continue]. *)
Definition item_type_str (t : Z) : option string :=
  if decide (t = 0) then Some "item"
  else if decide (t = 1) then Some "cargo"
  else None.

Definition upper (c : ascii) : ascii :=
  let n := nat_of_ascii c in
  if ((97 <=? n) && (n <=? 122))%nat then ascii_of_nat (n - 32) else c.

Definition lower (c : ascii) : ascii :=
  let n := nat_of_ascii c in
  if ((65 <=? n) && (n <=? 90))%nat then ascii_of_nat (n + 32) else c.

Fixpoint map_string (f : ascii -> ascii) (s : string) : string :=
  match s with
  | EmptyString => EmptyString
  | String c r => String (f c) (map_string f r)
  end.

(** [str.capitalize] on ASCII text. *)
Definition capitalize (s : string) : string :=
  match s with
  | EmptyString => EmptyString
  | String c r => String (upper c) (map_string lower r)
  end.

(** Lines 117-130: the item's name, type label and volume are written into
    every order and the row is trimmed to [market_cols_0]. *)
Definition attach (item : market_item) (type_str : string) (o : raw_order)
  : market_row :=
  {| itemName := item_name item;
     itemTypeStr := capitalize type_str;
     itemId := raw_itemId o;
     itemType := raw_itemType o;
     itemVolume := item_volume item;
     priceThreshold := raw_priceThreshold o;
     quantity := raw_quantity o;
     claimEntityId := raw_claimEntityId o;
     claimName := raw_claimName o;
     regionName := raw_regionName o |}.

(** The grouping key of line 135: [[x for x in market_cols_0 if x != "quantity"]]. *)
Definition group_key : Type :=
  string * string * Z * Z * Z * Z * string * string * string.

Definition key_of (r : market_row) : group_key :=
  (itemName r, itemTypeStr r, itemId r, itemType r, itemVolume r,
   priceThreshold r, claimEntityId r, claimName r, regionName r).

Definition row_of (g : group_key * Z) : market_row :=
  let '(n, ts, i, t, v, p, c, cn, rn, q) := g in
  {| itemName := n; itemTypeStr := ts; itemId := i; itemType := t;
     itemVolume := v; priceThreshold := p; quantity := q;
     claimEntityId := c; claimName := cn; regionName := rn |}.

(** One more row for the groups seen so far: the quantity joins the group
    of its key (an int64 sum), or opens a new group. *)
Fixpoint group_add (k : group_key) (q : Z) (groups : list (group_key * Z))
  : list (group_key * Z) :=
  match groups with
  | [] => [(k, q)]
  | (k', q') :: rest =>
      if decide (k = k') then (k', int64 (q' + q)) :: rest
      else (k', q') :: group_add k q rest
  end.

Definition groups_of (rows : list market_row) : list (group_key * Z) :=
  foldl (fun acc r => group_add (key_of r) (quantity r) acc) [] rows.

(** [df.groupby(by=..., as_index=False)["quantity"].sum()] followed by the
    re-ordering of the columns (lines 135-140).  pandas lists the groups
    sorted by key; here they come in order of first appearance, and no
    statement below depends on the order of a pool. *)
Definition groupby_sum (rows : list market_row) : list market_row :=
  map row_of (groups_of rows).

(** The normalized pool of one side of an order book. *)
Definition normalize (item : market_item) (type_str : string)
    (orders : list raw_order) : list market_row :=
  groupby_sum (map (attach item type_str) orders).

(* ===================================================================== *)
(** ** Arbitrage Matcher (lines 142-190)                                  *)
(* ===================================================================== *)

(** [join_columns] of line 161. *)
Definition join_key (r : market_row) : string * string * Z * Z * Z :=
  (itemName r, itemTypeStr r, itemId r, itemType r, itemVolume r).

(** A row of [merged_df]: the sell row and the buy row it was joined with.
    The join columns are common to both, the others are the renamed
    columns of lines 143-158. *)
Record merged_row : Type := {
  sell : market_row;
  buy : market_row;
}.

#[global] Instance merged_row_eq_dec : EqDecision merged_row.
Proof. solve_decision. Defined.

Definition Selling_Price (m : merged_row) : Z := priceThreshold (sell m).
Definition Selling_Quantity (m : merged_row) : Z := quantity (sell m).
Definition sellClaimEntityId (m : merged_row) : string := claimEntityId (sell m).
Definition Selling_Claim (m : merged_row) : string := claimName (sell m).
Definition Selling_Region (m : merged_row) : string := regionName (sell m).
Definition Buying_Price (m : merged_row) : Z := priceThreshold (buy m).
Definition Buying_Quantity (m : merged_row) : Z := quantity (buy m).
Definition buyClaimEntityId (m : merged_row) : string := claimEntityId (buy m).
Definition Buying_Claim (m : merged_row) : string := claimName (buy m).
Definition Buying_Region (m : merged_row) : string := regionName (buy m).

(** [pd.merge(left=all_sells, right=all_buys, on=join_columns, how="inner")]:
    each sell row with each buy row that has the same join key. *)
Definition merge (all_sells all_buys : list market_row) : list merged_row :=
  s ← all_sells;
  map (fun b => {| sell := s; buy := b |})
      (filter (fun b => join_key s = join_key b) all_buys).

(** Line 178. *)
Definition touches (claim_id : string) (m : merged_row) : Prop :=
  sellClaimEntityId m = claim_id \/ buyClaimEntityId m = claim_id.

#[global] Instance touches_dec claim_id m : Decision (touches claim_id m).
Proof. unfold touches. apply _. Defined.

(** A row of [merged_df] with the two columns of lines 183-184. *)
Record trade : Type := {
  pair : merged_row;
  Trade_Quantity : Z;
  Unit_Profit : Z;
}.

#[global] Instance trade_eq_dec : EqDecision trade.
Proof. solve_decision. Defined.

(** Lines 181-184: the prices are int64 by then, their difference wraps. *)
Definition profitability (m : merged_row) : trade :=
  {| pair := m;
     Trade_Quantity := Z.min (Buying_Quantity m) (Selling_Quantity m);
     Unit_Profit := int64 (Buying_Price m - Selling_Price m) |}.

(** Lines 169-187 for one item's pools. *)
Definition matcher (claim_id : string) (all_sells all_buys : list market_row)
  : list trade :=
  filter (fun t => 0 < Unit_Profit t)
    (map profitability
       (filter (touches claim_id) (merge all_sells all_buys))).

(** The body of the loop over [item_list] (lines 83-190): the rows one item
    adds to [full_df].  [answer] is what [_make_request] returned, [None]
    when it raised. *)
Definition process_item (claim_id : string) (item : market_item)
    (answer : option item_market) : list trade :=
  match item_type_str (item_type item) with
  | None => []
  | Some type_str =>
      match answer with
      | None => []
      | Some item_market =>
          let item_buys := buyOrders item_market in
          let item_sells := sellOrders item_market in
          if decide (length item_sells = 0%nat \/ length item_buys = 0%nat)
          then []
          else
            let all_buys := normalize item type_str item_buys in
            let all_sells := normalize item type_str item_sells in
            matcher claim_id all_sells all_buys
      end
  end.

(** [full_df] after the loop: the rows of all the items, in order.
    [request] answers the order-book query of an item ([type_str], id). *)
Definition collect (claim_id : string)
    (request : string -> Z -> option item_market)
    (item_list : list market_item) : list trade :=
  item ← item_list;
  process_item claim_id item
    (type_str ← item_type_str (item_type item);
     request type_str (item_id item)).

(* ===================================================================== *)
(** ** Distance Resolver (lines 193-235)                                  *)
(* ===================================================================== *)

(** [pd.unique]: the distinct values, in order of first appearance. *)
Definition unique {A} `{EqDecision A} (l : list A) : list A :=
  foldl (fun seen x => if decide (x ∈ seen) then seen else seen ++ [x]) [] l.

(** Line 194: the claims named by [full_df], the buy column then the sell
    column (the order in which [ravel] walks the two columns has no effect
    on the set of values). *)
Definition claim_list (full_df : list trade) : list string :=
  unique (map (fun t => buyClaimEntityId (pair t)) full_df
          ++ map (fun t => sellClaimEntityId (pair t)) full_df).

(** The ["claim"] object of a [claims/{id}] answer; a coordinate may be
    absent, [.get(..., 0)] then reads 0. *)
Record claim_info : Type := {
  locationX : option Z;
  locationZ : option Z;
}.

(** Line 221, from the home coordinates and those of the claim. *)
Definition dist (X0 Z0 : Z) (claim : claim_info) : float64 :=
  let claim_X := default 0 (locationX claim) in
  let claim_Z := default 0 (locationZ claim) in
  Finite (round2_sqrt_div3 ((X0 - claim_X) ^ 2 + (Z0 - claim_Z) ^ 2)).

(** One turn of the loop of lines 200-222; [request] is [None] where the
    query raised, and the claim is then left out of the dictionary. *)
Definition resolve_step (X0 Z0 : Z) (request : string -> option claim_info)
    (dist_dict : gmap string float64) (claim_id_iter : string)
  : gmap string float64 :=
  match request claim_id_iter with
  | None => dist_dict
  | Some claim => <[claim_id_iter := dist X0 Z0 claim]> dist_dict
  end.

Definition resolve (X0 Z0 : Z) (request : string -> option claim_info)
    (claims : list string) : gmap string float64 :=
  foldl (resolve_step X0 Z0 request) ∅ claims.

(** Lines 226-233: the side of the trade that is not the home claim. *)
Definition target_claim (claim_id : string) (t : trade) : string :=
  let claim_0 := buyClaimEntityId (pair t) in
  let claim_1 := sellClaimEntityId (pair t) in
  if decide (claim_0 = claim_id) then claim_1 else claim_0.

(** A row of [full_df] with its [Distance] column. *)
Record located : Type := {
  deal : trade;
  Distance : float64;
}.

(** Line 235. *)
Definition apply_distance (claim_id : string) (dist_dict : gmap string float64)
    (t : trade) : located :=
  {| deal := t;
     Distance := default PosInf (dist_dict !! target_claim claim_id t) |}.

(* ===================================================================== *)
(** ** Capacity Model (lines 237-291)                                     *)
(* ===================================================================== *)

Record capacity : Type := {
  item_slots : Z;
  cargo_slots : Z;
  item_slot_size : Z;
  cargo_slot_size : Z;
}.

Definition player_capacity : capacity :=
  {| item_slots := 25; cargo_slots := 1;
     item_slot_size := 6000; cargo_slot_size := 6000 |}.

Definition vehicle_capacity : list (string * capacity) :=
  [ ("Raft", {| item_slots := 6; cargo_slots := 1;
                item_slot_size := 6000; cargo_slot_size := 60000 |});
    ("Skiff", {| item_slots := 24; cargo_slots := 4;
                 item_slot_size := 6000; cargo_slot_size := 60000 |});
    ("Clipper", {| item_slots := 30; cargo_slots := 6;
                   item_slot_size := 6000; cargo_slot_size := 60000 |});
    ("Cargo Ship", {| item_slots := 30; cargo_slots := 10;
                      item_slot_size := 6000; cargo_slot_size := 60000 |}) ].

Definition base_item_qty : Z :=
  item_slot_size player_capacity * item_slots player_capacity.

Definition base_cargo_qty : Z :=
  cargo_slot_size player_capacity * cargo_slots player_capacity.

(** Lines 275-282: the room a vehicle and the player offer to an item of
    the given type label. *)
Definition room (vehicle : capacity) (type_label : string) : Z :=
  if decide (type_label = "Item") then
    item_slot_size vehicle * item_slots vehicle + base_item_qty
  else if decide (type_label = "Cargo") then
    cargo_slot_size vehicle * cargo_slots vehicle + base_cargo_qty
  else 0.

(** [int(a / b)]: the quotient truncated towards zero, and no result where
    the division raises.  The float quotient of two integers below 2^53 in
    magnitude truncates to the integer quotient. *)
Definition int_div (a b : Z) : option Z :=
  if decide (b = 0) then None else Some (Z.quot a b).

(** The three columns a vehicle adds to a row. *)
Record vehicle_columns : Type := {
  Quantity : Z;
  Profit : Z;
  Profit_per_1k_Dist : float64;
}.

(** Lines 275-291 for one row and one vehicle; [itemVolume] is an integer
    column by line 272.  Line 285 writes the quantity into a column that
    does not exist yet, which pandas creates as a float64 column, and line
    287 reads it back with [astype(int)]. *)
Definition vehicle_row (vehicle : capacity) (r : located)
  : option vehicle_columns :=
  let m := pair (deal r) in
  qty ← int_div (room vehicle (itemTypeStr (sell m))) (itemVolume (sell m));
  let quantity := float64_column (Z.min (Trade_Quantity (deal r)) qty) in
  let profit := int64 (quantity * Unit_Profit (deal r)) in
  Some {| Quantity := quantity;
          Profit := profit;
          Profit_per_1k_Dist :=
            np_round2 (truediv (int64 (1000 * profit)) (Distance r)) |}.

(** A row of [full_df] after the loop over [vehicle_capacity]. *)
Record ranked : Type := {
  base : located;
  vehicles : list (string * vehicle_columns);
}.

Definition rank_row (r : located) : option ranked :=
  cols ← mapM (fun v => c ← vehicle_row v.2 r; Some (v.1, c)) vehicle_capacity;
  Some {| base := r; vehicles := cols |}.

(** [full_df] after lines 225-291; [None] when a division raised, and when
    [full_df] has no row: the loops then create none of the new columns and
    line 287 raises on the missing one. *)
Definition enrich (claim_id : string) (dist_dict : gmap string float64)
    (full_df : list trade) : option (list ranked) :=
  match full_df with
  | [] => None
  | _ => mapM (fun t => rank_row (apply_distance claim_id dist_dict t)) full_df
  end.

(* ===================================================================== *)
(** ** Report Assembler (lines 293-323)                                   *)
(* ===================================================================== *)

(** A value of the table, and a row as its columns in order. *)
Inductive cell : Type :=
  | Str (s : string)
  | Int (z : Z)
  | Float (x : float64).

Abbreviation row := (list (string * cell)).

#[global] Instance Q_eq_dec : EqDecision Q.
Proof. solve_decision. Defined.
#[global] Instance float64_eq_dec : EqDecision float64.
Proof. solve_decision. Defined.
#[global] Instance cell_eq_dec : EqDecision cell.
Proof. solve_decision. Defined.

(** The first entry under a name. *)
Definition assoc {A} (name : string) (l : list (string * A)) : option A :=
  snd <$> (snd <$> list_find (fun p => p.1 = name) l).

(** The columns a vehicle contributes, named as lines 285-291 name them. *)
Definition vehicle_cells (v : string * vehicle_columns) : row :=
  [ (v.1 +:+ " Quantity", Int (Quantity v.2));
    (v.1 +:+ " Profit", Int (Profit v.2));
    (v.1 +:+ " Profit per 1k Dist", Float (Profit_per_1k_Dist v.2)) ].

(** The columns of a row of [full_df] before line 294, in the order the
    merge and the later assignments leave them in. *)
Definition cells (r : ranked) : row :=
  let t := deal (base r) in
  let m := pair t in
  [ ("itemName", Str (itemName (sell m)));
    ("itemTypeStr", Str (itemTypeStr (sell m)));
    ("itemId", Int (itemId (sell m)));
    ("itemType", Int (itemType (sell m)));
    ("itemVolume", Int (itemVolume (sell m)));
    ("Selling Price", Int (Selling_Price m));
    ("Selling Quantity", Int (Selling_Quantity m));
    ("sellClaimEntityId", Str (sellClaimEntityId m));
    ("Selling Claim", Str (Selling_Claim m));
    ("Selling Region", Str (Selling_Region m));
    ("Buying Price", Int (Buying_Price m));
    ("Buying Quantity", Int (Buying_Quantity m));
    ("buyClaimEntityId", Str (buyClaimEntityId m));
    ("Buying Claim", Str (Buying_Claim m));
    ("Buying Region", Str (Buying_Region m));
    ("Trade Quantity", Int (Trade_Quantity t));
    ("Unit Profit", Int (Unit_Profit t));
    ("Distance", Float (Distance (base r))) ]
  ++ (vehicles r ≫= vehicle_cells).

(** [df.drop(names, axis=1)]. *)
Definition drop (names : list string) (r : row) : row :=
  filter (fun c => c.1 ∉ names) r.

(** [df.rename(mapping, axis=1)]. *)
Definition rename (mapping : list (string * string)) (r : row) : row :=
  map (fun c => (default c.1 (assoc c.1 mapping), c.2)) r.

(** Lines 294-297. *)
Definition display (r : ranked) : row :=
  rename [("itemName", "Item"); ("itemTypeStr", "Item Type")]
    (drop ["itemId"; "itemType"; "itemVolume";
           "buyClaimEntityId"; "sellClaimEntityId"] (cells r)).

(** The value of a column in a row. *)
Definition column (name : string) (r : row) : option cell := assoc name r.

(** The float a column holds, [NaN] for anything else. *)
Definition float_of (name : string) (r : row) : float64 :=
  match column name r with
  | Some (Float x) => x
  | _ => NaN
  end.

(** The order of float64 on the values that are not NaN. *)
Definition fle (x y : float64) : Prop :=
  match x, y with
  | NaN, _ | _, NaN => False
  | NegInf, _ => True
  | _, PosInf => True
  | Finite a, Finite b => (a <= b)%Q
  | _, _ => False
  end.

(** [x] may stand before [y] in a column sorted with [ascending=False] and
    the default [na_position="last"]. *)
Definition precedes (x y : float64) : Prop :=
  is_nan y = true \/ (is_nan x = false /\ fle y x).

(** What [df.sort_values(by, ascending=False)] promises of its result: the
    rows of the table, rearranged so that the column descends and the
    missing values come last.  The call leaves [kind] at its default,
    "quicksort", which is not one of the stable algorithms of the library,
    so nothing is promised about rows with equal values. *)
Definition sort_values (by_col : string) (table sorted : list row) : Prop :=
  Permutation table sorted /\
  Sorted (fun r1 r2 => precedes (float_of by_col r1) (float_of by_col r2))
         sorted.

(** How the call of line 300 computes its result where numpy sorts with
    its own quicksort: pandas' [nargsort] hands the values that are not
    NaN, in reverse order, to [argsort(kind="quicksort")] and reverses the
    answer, and numpy's [aquicksort_] sorts the indices of a float64 array
    as follows.  The definitions follow the loops of that function, with
    positions in [tosort] for its pointers.  (A build of numpy that hands
    float64 arrays to a vectorised sort of the processor orders rows with
    equal values in its own way.) *)

(** [npy::double_tag::less], the order numpy sorts float64 by: [a < b], and
    a NaN after every number. *)
Definition float64_less (a b : float64) : bool :=
  match a, b with
  | NaN, _ => false
  | _, NaN => true
  | _, NegInf => false
  | NegInf, _ => true
  | PosInf, _ => false
  | _, PosInf => true
  | Finite x, Finite y => negb (Qle_bool y x)
  end.

(** [v[*p]]: the value under the index stored at position [p]. *)
Definition key_at (v : list float64) (tosort : list nat) (p : Z) : float64 :=
  default NaN (i ← tosort !! Z.to_nat p; v !! i).

(** [INTP_SWAP] on the entries at [p] and [q]. *)
Definition intp_swap (tosort : list nat) (p q : Z) : list nat :=
  match tosort !! Z.to_nat p, tosort !! Z.to_nat q with
  | Some a, Some b => <[Z.to_nat p := b]> (<[Z.to_nat q := a]> tosort)
  | _, _ => tosort
  end.

(** The entries at [p] and [q] are swapped if the value at [p] is less. *)
Definition swap_if_less (v : list float64) (tosort : list nat) (p q : Z)
  : list nat :=
  if float64_less (key_at v tosort p) (key_at v tosort q)
  then intp_swap tosort p q else tosort.

(** [do { ++pi; } while (less(v[*pi], vp))]. *)
Fixpoint scan_up (fuel : nat) (v : list float64) (tosort : list nat)
    (vp : float64) (pi : Z) : Z :=
  match fuel with
  | O => pi + 1
  | S fuel =>
      if float64_less (key_at v tosort (pi + 1)) vp
      then scan_up fuel v tosort vp (pi + 1) else pi + 1
  end.

(** [do { --pj; } while (less(vp, v[*pj]))]. *)
Fixpoint scan_down (fuel : nat) (v : list float64) (tosort : list nat)
    (vp : float64) (pj : Z) : Z :=
  match fuel with
  | O => pj - 1
  | S fuel =>
      if float64_less vp (key_at v tosort (pj - 1))
      then scan_down fuel v tosort vp (pj - 1) else pj - 1
  end.

(** The [for (;;)] loop of a partition: entries are exchanged until the two
    scans meet; the result is the array and the position where they met. *)
Fixpoint exchange (fuel : nat) (v : list float64) (tosort : list nat)
    (vp : float64) (pi pj : Z) : list nat * Z :=
  match fuel with
  | O => (tosort, pi)
  | S fuel =>
      let pi := scan_up (length tosort) v tosort vp pi in
      let pj := scan_down (length tosort) v tosort vp pj in
      if pj <=? pi then (tosort, pi)
      else exchange fuel v (intp_swap tosort pi pj) vp pi pj
  end.

(** One partition of the positions [pl..pr]: the median of the first, the
    middle and the last value is the pivot, parked at [pr - 1] during the
    exchanges and put in its place after them. *)
Definition partition (v : list float64) (tosort : list nat) (pl pr : Z)
  : list nat * Z :=
  let pm := pl + (pr - pl) / 2 in
  let tosort := swap_if_less v tosort pm pl in
  let tosort := swap_if_less v tosort pr pm in
  let tosort := swap_if_less v tosort pm pl in
  let vp := key_at v tosort pm in
  let tosort := intp_swap tosort pm (pr - 1) in
  let '(tosort, pi) := exchange (length tosort) v tosort vp pl (pr - 1) in
  (intp_swap tosort pi (pr - 1), pi).

(** [while (pj > pl && less(vp, v[*pk])) { *pj-- = *pk--; }], with
    [pk = pj - 1]. *)
Fixpoint shift (fuel : nat) (v : list float64) (tosort : list nat)
    (vp : float64) (pl pj : Z) : list nat * Z :=
  match fuel with
  | O => (tosort, pj)
  | S fuel =>
      if (pl <? pj) && float64_less vp (key_at v tosort (pj - 1)) then
        match tosort !! Z.to_nat (pj - 1) with
        | Some i => shift fuel v (<[Z.to_nat pj := i]> tosort) vp pl (pj - 1)
        | None => (tosort, pj)
        end
      else (tosort, pj)
  end.

(** The insertion sort of the positions [pl..pr], from [pi] on. *)
Fixpoint insertion (fuel : nat) (v : list float64) (tosort : list nat)
    (pl pr pi : Z) : list nat :=
  match fuel with
  | O => tosort
  | S fuel =>
      if pi <=? pr then
        match tosort !! Z.to_nat pi with
        | Some vi =>
            let vp := default NaN (v !! vi) in
            let '(tosort, pj) := shift (length tosort) v tosort vp pl pi in
            insertion fuel v (<[Z.to_nat pj := vi]> tosort) pl pr (pi + 1)
        | None => tosort
        end
      else tosort
  end.

(** The loop of [aquicksort_]: while [pr - pl] exceeds 16 the range is
    partitioned, the larger part waits on the stack and the smaller one is
    continued with; a range of at most 17 positions is sorted by insertion
    and the next range is taken from the stack.  [None] where the depth
    limit hands a range to heapsort, which is not followed here. *)
Fixpoint aquicksort_loop (fuel : nat) (v : list float64) (tosort : list nat)
    (pl pr : Z) (cdepth : Z) (stack : list (Z * Z * Z))
  : option (list nat) :=
  match fuel with
  | O => None
  | S fuel =>
      if 16 <? pr - pl then
        let '(tosort, pi) := partition v tosort pl pr in
        if pi - pl <? pr - pi then
          aquicksort_loop fuel v tosort pl (pi - 1) (cdepth - 1)
            ((pi + 1, pr, cdepth - 1) :: stack)
        else
          aquicksort_loop fuel v tosort (pi + 1) pr (cdepth - 1)
            ((pl, pi - 1, cdepth - 1) :: stack)
      else
        let tosort := insertion (length tosort) v tosort pl pr (pl + 1) in
        match stack with
        | [] => Some tosort
        | (pl, pr, cdepth) :: stack =>
            if cdepth <? 0 then None
            else aquicksort_loop fuel v tosort pl pr cdepth stack
        end
  end.

(** [v.argsort(kind="quicksort")] on a float64 array. *)
Definition argsort (v : list float64) : option (list nat) :=
  let num := Z.of_nat (length v) in
  aquicksort_loop (2 * length v + 1) v (seq 0 (length v)) 0 (num - 1)
    (Z.log2 num * 2) [].

(** [nargsort(items, kind="quicksort", ascending=False,
    na_position="last")]. *)
Definition nargsort (items : list float64) : option (list nat) :=
  let idx := seq 0 (length items) in
  let mask := fun i => is_nan (default NaN (items !! i)) in
  let non_nan_idx := reverse (filter (fun i => mask i = false) idx) in
  let nan_idx := filter (fun i => mask i = true) idx in
  let non_nans := omap (fun i => items !! i) non_nan_idx in
  indexer ← argsort non_nans;
  Some (reverse (omap (fun i => non_nan_idx !! i) indexer) ++ nan_idx).

(** [df.sort_values(by, ascending=False)] computed this way: the rows taken
    in the order of the indexer. *)
Definition sort_values_quicksort (by_col : string) (table : list row)
  : option (list row) :=
  match nargsort (float_of by_col <$> table) with
  | Some indexer => Some (omap (fun i => table !! i) indexer)
  | None => None
  end.

(** [df.replace([np.inf, -np.inf], np.nan)] on a value and on a row. *)
Definition replace_inf_cell (c : cell) : cell :=
  match c with
  | Float PosInf | Float NegInf => Float NaN
  | other => other
  end.

Definition replace_inf (r : row) : row :=
  map (fun c => (c.1, replace_inf_cell c.2)) r.

(** A missing value. *)
Definition isna (c : cell) : bool :=
  match c with
  | Float NaN => true
  | _ => false
  end.

(** [df.dropna()]: the rows without a missing value. *)
Definition dropna (table : list row) : list row :=
  filter (fun r => forallb (fun c => negb (isna c.2)) r = true) table.

(** Lines 307-309, on the sorted table. *)
Definition finish (sorted : list row) : list row :=
  dropna (map replace_inf sorted).

(** The table [main] uploads, or logs as empty: any result of the sort of
    line 300 on the displayed rows, finished by lines 307-309. *)
Definition report (rows : list ranked) (final : list row) : Prop :=
  exists sorted,
    sort_values "Cargo Ship Profit per 1k Dist" (map display rows) sorted /\
    final = finish sorted.

(** The strings a column holds, row by row. *)
Definition strings_of (name : string) (table : list row) : list string :=
  table ≫= fun r => match column name r with
                    | Some (Str s) => [s]
                    | _ => []
                    end.

(** Lines 317-318 and 323: the number written to cell G14. *)
Definition claim_N (final : list row) : nat :=
  length (unique (strings_of "Buying Claim" final
                  ++ strings_of "Selling Claim" final)).

(** Line 322: the number written to cell D14. *)
Definition item_N (final : list row) : nat :=
  length (unique (strings_of "Item" final)).

(* ===================================================================== *)
(** ** Definitions used to state the properties                           *)
(* ===================================================================== *)

(** The sum of the quantities of the rows with a given grouping key. *)
Definition total (k : group_key) (rows : list market_row) : Z :=
  foldr Z.add 0 (map quantity (filter (fun r => key_of r = k) rows)).

(** The quantity recorded for a key among the groups. *)
Fixpoint group_lookup (k : group_key) (groups : list (group_key * Z))
  : option Z :=
  match groups with
  | [] => None
  | (k', q) :: rest => if decide (k = k') then Some q else group_lookup k rest
  end.

(** The key the specification names for an order: item, location, price. *)
Definition order_key (r : market_row) : Z * string * Z :=
  (itemId r, claimEntityId r, priceThreshold r).

(** The orders of a book name each claim by one name and one region, and
    each item by one type code, as the data model has it. *)
Definition consistent (orders : list raw_order) : Prop :=
  forall o1 o2, o1 ∈ orders -> o2 ∈ orders ->
    (raw_claimEntityId o1 = raw_claimEntityId o2 ->
     raw_claimName o1 = raw_claimName o2 /\
     raw_regionName o1 = raw_regionName o2) /\
    (raw_itemId o1 = raw_itemId o2 -> raw_itemType o1 = raw_itemType o2).

(** A price as the data model has it: a non-negative 64-bit integer. *)
Definition price_ok (o : raw_order) : Prop :=
  0 <= raw_priceThreshold o < 2 ^ 63.

(** [r1] stands before [r2] in a table. *)
Definition before (r1 r2 : row) (table : list row) : Prop :=
  exists i j : nat, (i < j)%nat /\ table !! i = Some r1 /\ table !! j = Some r2.

(** A sort that keeps rows with equal values of the column in the order
    they had. *)
Definition keeps_ties (by_col : string) (table sorted : list row) : Prop :=
  forall r1 r2,
    float_of by_col r1 = float_of by_col r2 ->
    before r1 r2 table -> before r1 r2 sorted.

(** The effective capacity in the words of the specification: the
    profile's own slots times the slot size plus the corresponding
    home-storage allowance, with the item-slot figures for the label "Item"
    and the cargo-slot figures for "Cargo"; zero for any other label. *)
Definition effective_capacity (profile home_storage : capacity)
    (label : string) : Z :=
  if decide (label = "Item") then
    item_slots profile * item_slot_size profile
    + item_slots home_storage * item_slot_size home_storage
  else if decide (label = "Cargo") then
    cargo_slots profile * cargo_slot_size profile
    + cargo_slots home_storage * cargo_slot_size home_storage
  else 0.

(** A value that is neither missing nor infinite. *)
Definition complete (c : cell) : Prop :=
  match c with
  | Float x => is_finite x = true
  | _ => True
  end.

#[global] Instance complete_dec c : Decision (complete c).
Proof. destruct c; simpl; apply _. Defined.

(** A row without a missing or infinite value. *)
Definition complete_row (r : row) : Prop := Forall (fun c => complete c.2) r.

(** The claims other than the home claim that the trades name, as the
    specification counts counterparties. *)
Definition counterparties (claim_id : string) (rows : list ranked)
  : list string :=
  unique (filter (fun c => c <> claim_id)
            (map (fun r => buyClaimEntityId (pair (deal (base r)))) rows
             ++ map (fun r => sellClaimEntityId (pair (deal (base r)))) rows)).

(* ===================================================================== *)
(** ** A sample run                                                       *)
(* ===================================================================== *)

Module Sample.

Definition home : string := "H".

Definition order (id price qty : Z) (claim name region : string)
  : raw_order :=
  {| raw_itemId := id; raw_itemType := 0;
     raw_priceThreshold := price; raw_quantity := qty;
     raw_claimEntityId := claim; raw_claimName := name;
     raw_regionName := region |}.

Definition plank : market_item :=
  {| item_name := "Plank"; item_type := 0; item_id := 7; item_volume := 5 |}.

Definition brick : market_item :=
  {| item_name := "Brick"; item_type := 0; item_id := 8; item_volume := 5 |}.

Definition item_list : list market_item := [plank; brick].

(** Planks: sold at home, bought twice at the same price at B and once at
    C.  Bricks: sold at home, bought at B. *)
Definition plank_market : item_market :=
  {| buyOrders := [ order 7 15 50 "B" "Bee" "North";
                    order 7 15 50 "B" "Bee" "North";
                    order 7 20 10 "C" "Sea" "South" ];
     sellOrders := [ order 7 10 100 "H" "Home" "North" ] |}.

Definition brick_market : item_market :=
  {| buyOrders := [ order 8 15 100 "B" "Bee" "North" ];
     sellOrders := [ order 8 10 100 "H" "Home" "North" ] |}.

Definition market (type_str : string) (id : Z) : option item_market :=
  if decide (id = 7) then Some plank_market
  else if decide (id = 8) then Some brick_market
  else None.

(** The query for claim C fails. *)
Definition claims (id : string) : option claim_info :=
  if decide (id = "H") then
    Some {| locationX := Some 0; locationZ := Some 0 |}
  else if decide (id = "B") then
    Some {| locationX := Some 30; locationZ := Some 40 |}
  else None.

Definition full_df : list trade := collect home market item_list.

Definition dist_dict : gmap string float64 :=
  resolve 0 0 claims (claim_list full_df).

Definition rows : list ranked :=
  default [] (enrich home dist_dict full_df).

(** The displayed rows in the order the loop produced them, and two
    orders a sort may leave them in. *)
Definition table : list row := map display rows.

Definition sorted : list row :=
  match table with
  | [plank_B; plank_C; brick_B] => [plank_B; brick_B; plank_C]
  | _ => []
  end.

Definition sorted' : list row :=
  match table with
  | [plank_B; plank_C; brick_B] => [brick_B; plank_B; plank_C]
  | _ => []
  end.

(** The first row of [full_df], with its distance. *)
Definition plank_B : located :=
  apply_distance home dist_dict
    (profitability
       {| sell := attach plank "item" (order 7 10 100 "H" "Home" "North");
          buy := attach plank "item" (order 7 15 100 "B" "Bee" "North") |}).

(** The report of the run, and the rows of [full_df] it shows. *)
Definition final : list row := finish sorted.

Definition final_rows : list ranked :=
  filter (fun r => display r ∈ final) rows.

Definition raft : capacity :=
  {| item_slots := 6; cargo_slots := 1;
     item_slot_size := 6000; cargo_slot_size := 60000 |}.

Definition bee : claim_info :=
  {| locationX := Some 30; locationZ := Some 40 |}.

(** Two orders of one claim, item and price under two names of the claim. *)
Definition renamed : list raw_order :=
  [ order 7 15 50 "B" "Bee" "North"; order 7 15 50 "B" "Bea" "North" ].

End Sample.

(* ===================================================================== *)
(** ** Start-up (lines 17-38), run time (302-304), upload (311-334)       *)
(* ===================================================================== *)

(** [s.split(sep)] for a non-empty [sep]: the first piece and the pieces
    after it.  The string is walked from the left; where [sep] starts the
    piece ends and the characters of [sep] are passed over, [skip] counting
    those still to pass. *)
Fixpoint split_from (sep : string) (skip : nat) (s : string)
  : string * list string :=
  match s with
  | EmptyString => (EmptyString, [])
  | String c r =>
      match skip with
      | S k => split_from sep k r
      | O =>
          if String.prefix sep s then
            (EmptyString,
             let '(p, ps) := split_from sep (String.length sep - 1) r in
             p :: ps)
          else
            let '(p, ps) := split_from sep 0 r in (String c p, ps)
      end
  end.

Definition split (sep s : string) : list string :=
  let '(p, ps) := split_from sep 0 s in p :: ps.

(** Line 25: [claim_url.split("claims/")[1]], [None] for the IndexError. *)
Definition claim_id_of (claim_url : string) : option string :=
  split "claims/" claim_url !! 1%nat.

(** [sep] occurs in [s]. *)
Definition occurs (sep s : string) : Prop :=
  exists a b, s = a +:+ sep +:+ b.

(** [s[n:]]. *)
Fixpoint string_drop (n : nat) (s : string) : string :=
  match n, s with
  | S k, String _ r => string_drop k r
  | _, _ => s
  end.

(** What [os.getenv] returns for the three entries of the .env file. *)
Record settings : Type := {
  CLAIM_URL : option string;
  THROTTLE_RATE : option string;
  SPREADSHEET_NAME : option string;
}.

(** How lines 20-38 end: with the three values the run needs, with the
    error logged for a missing entry and the [return], or with an
    exception. *)
Inductive startup (T : Type) : Type :=
  | Ready (claim_id : string) (throttle_rate : T) (spreadsheet_name : string)
  | Missing (entry : string)
  | Raises.

Arguments Ready {T} _ _ _.
Arguments Missing {T} _.
Arguments Raises {T}.

(** [if value:] on what [os.getenv] returned: an absent entry and an empty
    one are both false. *)
Definition truthy (value : option string) : option string :=
  match value with
  | Some s => if decide (s = EmptyString) then None else Some s
  | None => None
  end.

(** Lines 20-38; [float] is Python's conversion of line 31, [None] where
    it raises. *)
Definition start {T} (float : string -> option T) (env : settings)
  : startup T :=
  match truthy (CLAIM_URL env) with
  | None => Missing "CLAIM_URL"
  | Some claim_url =>
      match claim_id_of claim_url with
      | None => Raises
      | Some claim_id =>
          match truthy (THROTTLE_RATE env) with
          | None => Missing "THROTTLE_RATE"
          | Some throttle_rate =>
              match float throttle_rate with
              | None => Raises
              | Some throttle_rate =>
                  match truthy (SPREADSHEET_NAME env) with
                  | None => Missing "SPREADSHEET_NAME"
                  | Some spreadsheet_name =>
                      Ready claim_id throttle_rate spreadsheet_name
                  end
              end
          end
      end
  end.

(** [timedelta.seconds] of a difference of two datetimes given in
    microseconds: the seconds of the last, incomplete day. *)
Definition timedelta_seconds (microseconds : Z) : Z :=
  (microseconds / 1000000) mod 86400.

(** Line 304, from the two datetimes in microseconds. *)
Definition t_diff (t_start t_end : Z) : Z :=
  rint (inject_Z (timedelta_seconds (t_end - t_start)) / 60).

(** How lines 311-334 end: the two counts written to D14 and G14 and the
    header and the rows written to the sheet of trades, or the warning of
    the empty dataset.  (D12 and G12 hold the start time and [t_diff].) *)
Inductive outcome : Type :=
  | Uploaded (D14 G14 : nat) (header : list string) (values : list (list cell))
  | EmptyDataset.

Definition publish (final : list row) : outcome :=
  match final with
  | [] => EmptyDataset
  | r :: _ =>
      Uploaded (item_N final) (claim_N final) r.*1 (map (fmap snd) final)
  end.

(** The sum of a list of integers. *)
Definition sumZ (l : list Z) : Z := foldr Z.add 0 l.

(** The header of the sheet of trades. *)
Definition report_columns : list string :=
  [ "Item"; "Item Type"; "Selling Price"; "Selling Quantity";
    "Selling Claim"; "Selling Region"; "Buying Price"; "Buying Quantity";
    "Buying Claim"; "Buying Region"; "Trade Quantity"; "Unit Profit";
    "Distance";
    "Raft Quantity"; "Raft Profit"; "Raft Profit per 1k Dist";
    "Skiff Quantity"; "Skiff Profit"; "Skiff Profit per 1k Dist";
    "Clipper Quantity"; "Clipper Profit"; "Clipper Profit per 1k Dist";
    "Cargo Ship Quantity"; "Cargo Ship Profit";
    "Cargo Ship Profit per 1k Dist" ].

(* ===================================================================== *)
(** ** Two records of the pools of the sample run                         *)
(* ===================================================================== *)

Module Pools.

(** The planks on sale at home, and the planks B buys, its two orders in
    one record. *)
Definition on_sale : market_row :=
  attach Sample.plank "item" (Sample.order 7 10 100 "H" "Home" "North").

Definition wanted : market_row :=
  attach Sample.plank "item" (Sample.order 7 15 100 "B" "Bee" "North").

End Pools.

(* ===================================================================== *)
(** ** A run in which the home claim trades with itself                   *)
(* ===================================================================== *)

Module SelfTrade.

(** Planks sold at home at 10 and bought at home at 15. *)
Definition plank_market : item_market :=
  {| buyOrders := [ Sample.order 7 15 50 "H" "Home" "North" ];
     sellOrders := [ Sample.order 7 10 100 "H" "Home" "North" ] |}.

Definition market (type_str : string) (id : Z) : option item_market :=
  if decide (id = 7) then Some plank_market else None.

Definition full_df : list trade :=
  collect Sample.home market [Sample.plank].

Definition rows : list ranked :=
  default []
    (enrich Sample.home (resolve 0 0 Sample.claims (claim_list full_df))
       full_df).

End SelfTrade.

(* ===================================================================== *)
(** ** A cargo that fills the vehicles                                    *)
(* ===================================================================== *)

Module Freight.

(** Timber, a cargo of volume 6000: a hundred sold at home at 10 and
    wanted at B at 15.  A Raft with the player carries 11 of them, a Skiff
    41, a Clipper 61 and a Cargo Ship 101. *)
Definition timber : market_item :=
  {| item_name := "Timber"; item_type := 1; item_id := 9;
     item_volume := 6000 |}.

Definition order (price qty : Z) (claim name region : string) : raw_order :=
  {| raw_itemId := 9; raw_itemType := 1;
     raw_priceThreshold := price; raw_quantity := qty;
     raw_claimEntityId := claim; raw_claimName := name;
     raw_regionName := region |}.

Definition timber_B : located :=
  apply_distance Sample.home Sample.dist_dict
    (profitability
       {| sell := attach timber "cargo" (order 10 100 "H" "Home" "North");
          buy := attach timber "cargo" (order 15 100 "B" "Bee" "North") |}).

End Freight.

(* ===================================================================== *)
(** ** A run with eighteen trades                                         *)
(* ===================================================================== *)

Module Fleet.

(** Eighteen goods of volume 1, ten of each sold at home at 10 and wanted
    at B, 50 away: at 19 the first, at 12 the last, at 15 the sixteen
    between them.  Each pool holds one order, so that [full_df] has one row
    per good, in the order of the list. *)
Definition goods : list (string * Z) :=
  [ ("Plank", 19); ("Brick", 15); ("Rope", 15); ("Cloth", 15); ("Nail", 15);
    ("Ingot", 15); ("Leather", 15); ("Glass", 15); ("Flour", 15);
    ("Salt", 15); ("Resin", 15); ("Thread", 15); ("Brass", 15); ("Hide", 15);
    ("Clay", 15); ("Fiber", 15); ("Pitch", 15); ("Sap", 12) ].

Definition item_list : list market_item :=
  imap (fun i g => {| item_name := g.1; item_type := 0;
                      item_id := Z.of_nat i; item_volume := 1 |}) goods.

Definition market (type_str : string) (id : Z) : option item_market :=
  if decide (0 <= id) then
    g ← goods !! Z.to_nat id;
    Some {| buyOrders := [Sample.order id g.2 10 "B" "Bee" "North"];
            sellOrders := [Sample.order id 10 10 "H" "Home" "North"] |}
  else None.

Definition claims (id : string) : option claim_info :=
  if decide (id = "H") then
    Some {| locationX := Some 0; locationZ := Some 0 |}
  else if decide (id = "B") then
    Some {| locationX := Some 90; locationZ := Some 120 |}
  else None.

Definition full_df : list trade := collect Sample.home market item_list.

Definition dist_dict : gmap string float64 :=
  resolve 0 0 claims (claim_list full_df).

Definition rows : list ranked :=
  default [] (enrich Sample.home dist_dict full_df).

(** The table before line 300 and after it. *)
Definition table : list row := display <$> rows.

Definition sorted : list row :=
  default []
    (sort_values_quicksort "Cargo Ship Profit per 1k Dist" table).

Definition final : list row := finish sorted.

(** The rows of the rope and of the cloth, third and fourth of the table. *)
Definition rope : row := default [] (table !! 2%nat).

Definition cloth : row := default [] (table !! 3%nat).

End Fleet.

(* ===================================================================== *)
(** ** A claim far from home                                              *)
(* ===================================================================== *)

Module Far.

(** A claim at (261704, 1084), seen from a home at the origin: 100 times a
    third of the distance is 8723541.4999999984... *)
Definition claim : claim_info :=
  {| locationX := Some 261704; locationZ := Some 1084 |}.

Definition request (id : string) : option claim_info := Some claim.

End Far.

(* ===================================================================== *)
(** ** 64-bit arithmetic                                                  *)
(* ===================================================================== *)

Lemma int64_id z : in_int64 z -> int64 z = z.
Proof.
  unfold in_int64, int64. intros H.
  rewrite Z.mod_small by lia. lia.
Qed.

Lemma int64_add_l a b : int64 (int64 a + b) = int64 (a + b).
Proof.
  unfold int64. f_equal.
  replace (((a + 2 ^ 63) mod 2 ^ 64 - 2 ^ 63 + b + 2 ^ 63))
    with ((a + 2 ^ 63) mod 2 ^ 64 + b) by lia.
  replace (a + b + 2 ^ 63) with ((a + 2 ^ 63) + b) by lia.
  apply Zplus_mod_idemp_l.
Qed.

(* ===================================================================== *)
(** ** float64 arithmetic                                                 *)
(* ===================================================================== *)

(** [rint] is within one half of its argument. *)
Lemma rint_close q :
  (inject_Z (rint q) - (1 # 2) <= q <= inject_Z (rint q) + (1 # 2))%Q.
Proof.
  unfold rint.
  pose proof (Qfloor_le q) as Hlo. pose proof (Qlt_floor q) as Hhi.
  rewrite inject_Z_plus in Hhi.
  change (inject_Z 1) with 1%Q in Hhi.
  destruct (Qcompare (q - inject_Z (Qfloor q)) (1 # 2)) eqn:E.
  - apply Qeq_alt in E.
    destruct (Z.even (Qfloor q)); rewrite ?inject_Z_plus;
      change (inject_Z 1) with 1%Q;
      revert Hlo Hhi E; generalize (inject_Z (Qfloor q)); intros f; Lqa.lra.
  - apply Qlt_alt in E.
    revert Hlo Hhi E. generalize (inject_Z (Qfloor q)). intros f. Lqa.lra.
  - apply Qgt_alt in E. rewrite inject_Z_plus.
    change (inject_Z 1) with 1%Q.
    revert Hlo Hhi E. generalize (inject_Z (Qfloor q)). intros f. Lqa.lra.
Qed.

Lemma rint_comp q q' : (q == q')%Q -> rint q = rint q'.
Proof.
  intros H. unfold rint.
  assert (Qfloor q = Qfloor q') as -> by (by rewrite H).
  assert (Qcompare (q - inject_Z (Qfloor q')) (1 # 2)
          = Qcompare (q' - inject_Z (Qfloor q')) (1 # 2)) as ->
    by (by rewrite H).
  done.
Qed.

Lemma rint_Z n : rint (inject_Z n) = n.
Proof.
  unfold rint. rewrite Qfloor_Z.
  destruct (Qcompare _ _) eqn:E; [apply Qeq_alt in E | done | apply Qgt_alt in E];
    exfalso; revert E; generalize (inject_Z n); intros; Lqa.lra.
Qed.

Lemma rint_nonneg q : (0 <= q)%Q -> 0 <= rint q.
Proof.
  intros Hq. destruct (rint_close q) as [_ Hhi].
  assert (-1 < rint q); [|lia].
  rewrite Zlt_Qlt. change (inject_Z (-1)) with (-1)%Q.
  revert Hhi Hq. generalize (inject_Z (rint q)). intros. Lqa.lra.
Qed.

Lemma pow2_pos e : (0 < 2 ^ e)%Q.
Proof. by apply Qpower_0_lt. Qed.

Lemma pow2_Z n : 0 <= n -> (2 ^ n == inject_Z (2 ^ n))%Q.
Proof. intros Hn. by rewrite Zpower_Qpower. Qed.

(** [ilog2 x] is a lower bound of the binary logarithm. *)
Lemma ilog2_le x : (0 < x)%Q -> (2 ^ ilog2 x <= x)%Q.
Proof.
  intros Hx. unfold ilog2.
  destruct (Qle_bool _ x) eqn:E; [by apply Qle_bool_iff|].
  destruct x as [a b]. cbn [Qnum Qden].
  assert (0 < a) as Ha by (unfold Qlt in Hx; simpl in Hx; lia).
  pose proof (Z.log2_nonneg a). pose proof (Z.log2_nonneg (Z.pos b)).
  destruct (Z.log2_spec a Ha) as [Hla _].
  destruct (Z.log2_spec (Z.pos b) ltac:(lia)) as [_ Hlb].
  replace (Z.log2 a - Z.log2 (Z.pos b) - 1)
    with (Z.log2 a - Z.succ (Z.log2 (Z.pos b))) by lia.
  rewrite Qpower_minus by done.
  rewrite !pow2_Z by lia.
  apply Qle_shift_div_r.
  - rewrite <- (Zlt_Qlt 0). lia.
  - unfold Qle, Qmult, inject_Z. cbn [Qnum Qden].
    rewrite Pos.mul_1_r, Z.mul_1_r.
    transitivity (a * Z.pos b);
      [apply Z.mul_le_mono_nonneg_r | apply Z.mul_le_mono_nonneg_l]; lia.
Qed.

Lemma ilog2_Z n : 0 < n -> ilog2 (inject_Z n) = Z.log2 n.
Proof.
  intros Hn. unfold ilog2. cbn [Qnum Qden inject_Z].
  change (Z.log2 1) with 0. rewrite Z.sub_0_r.
  destruct (Z.log2_spec n Hn) as [Hlo _].
  pose proof (Z.log2_nonneg n).
  assert (Qle_bool (2 ^ Z.log2 n) (inject_Z n) = true) as ->; [|done].
  apply Qle_bool_iff. rewrite pow2_Z by done. by rewrite <- Zle_Qle.
Qed.

(** A float64 is within 2^-53 of its magnitude of the number it rounds. *)
Lemma to_float64_close x :
  (0 <= x)%Q ->
  (x * (1 - (1 # 2 ^ 53)) <= to_float64 x <= x * (1 + (1 # 2 ^ 53)))%Q.
Proof.
  intros Hx. unfold to_float64.
  destruct (Qeq_bool x 0) eqn:E.
  { apply Qeq_bool_iff in E. rewrite E. split; Lqa.lra. }
  assert (0 < x)%Q as Hpos.
  { apply Qeq_bool_neq in E. apply Qle_lteq in Hx as [?|Hx]; [done|].
    by destruct E. }
  assert (Qabs x = x) as ->.
  { destruct x as [a b]. unfold Qle in Hx. simpl in *.
    f_equal. apply Z.abs_eq. lia. }
  set (p := ilog2 x).
  pose proof (ilog2_le x Hpos) as Hp. fold p in Hp.
  set (ulp := (2 ^ (p - 52))%Q).
  assert (0 < ulp)%Q as Hulp by apply pow2_pos.
  assert (ulp == 2 ^ p * (1 # 2 ^ 52))%Q as Hu.
  { unfold ulp. rewrite Qpower_minus by done. done. }
  destruct (rint_close (x / ulp)) as [Hlo Hhi].
  set (m := inject_Z (rint (x / ulp))) in *.
  assert (x == x / ulp * ulp)%Q as Hxu.
  { field. intros H. rewrite H in Hulp. by apply Qlt_irrefl in Hulp. }
  assert ((m - (1 # 2)) * ulp <= x / ulp * ulp)%Q as H1
    by (apply Qmult_le_compat_r; [done | by apply Qlt_le_weak]).
  assert (x / ulp * ulp <= (m + (1 # 2)) * ulp)%Q as H2
    by (apply Qmult_le_compat_r; [done | by apply Qlt_le_weak]).
  rewrite <- Hxu in H1, H2.
  revert H1 H2 Hu Hp. generalize (2 ^ p)%Q. intros P H1 H2 Hu Hp.
  rewrite Hu in H1, H2 |- *.
  clear Hlo Hhi Hxu Hu. revert H1 H2 Hp. generalize m. clear. intros m.
  change (2 ^ 52)%positive with 4503599627370496%positive.
  change (2 ^ 53)%positive with 9007199254740992%positive.
  intros. split; Lqa.lra.
Qed.

Lemma to_float64_nonneg x : (0 <= x)%Q -> (0 <= to_float64 x)%Q.
Proof.
  intros Hx. pose proof (to_float64_close x Hx) as [H _].
  eapply Qle_trans; [|exact H].
  apply Qmult_le_0_compat; [done|].
  change (2 ^ 53)%positive with 9007199254740992%positive. Lqa.lra.
Qed.

(** An integer of magnitude at most 2^53 is a float64. *)
Lemma to_float64_Z n :
  Z.abs n <= 2 ^ 53 -> (to_float64 (inject_Z n) == inject_Z n)%Q.
Proof.
  intros Hn. unfold to_float64.
  destruct (Qeq_bool (inject_Z n) 0) eqn:E.
  { apply Qeq_bool_iff in E. by rewrite E. }
  assert (n <> 0) as Hnz.
  { intros ->. by vm_compute in E. }
  change (Qabs (inject_Z n)) with (inject_Z (Z.abs n)).
  rewrite ilog2_Z by lia.
  destruct (decide (Z.abs n = 2 ^ 53)) as [Heq|Hne].
  { assert (n = 2 ^ 53 \/ n = - 2 ^ 53) as [-> | ->] by lia; by vm_compute. }
  assert (Z.log2 (Z.abs n) < 53) as Hlog by (apply Z.log2_lt_pow2; lia).
  pose proof (Z.log2_nonneg (Z.abs n)).
  set (e := 52 - Z.log2 (Z.abs n)).
  replace (Z.log2 (Z.abs n) - 52) with (- e) by (unfold e; lia).
  assert (0 <= e) as He by (unfold e; lia).
  assert (2 ^ (- e) == / inject_Z (2 ^ e))%Q as Hu.
  { rewrite Qpower_opp. by rewrite pow2_Z. }
  assert (0 < 2 ^ e) as Hpow by (apply Z.pow_pos_nonneg; lia).
  assert (~ inject_Z (2 ^ e) == 0)%Q as Hk.
  { unfold Qeq. simpl. lia. }
  assert (inject_Z n / 2 ^ (- e) == inject_Z (n * 2 ^ e))%Q as Hm.
  { rewrite Hu, inject_Z_mult. by field. }
  rewrite (rint_comp _ _ Hm), rint_Z, Hu, inject_Z_mult. by field.
Qed.

Lemma astype_int_Z x n : (x == inject_Z n)%Q -> astype_int x = n.
Proof.
  unfold Qeq, astype_int. simpl. rewrite Z.mul_1_r. intros ->.
  apply Z.quot_mul. lia.
Qed.

Lemma float64_sqrt_nonneg x : (0 <= float64_sqrt x)%Q.
Proof.
  unfold float64_sqrt. destruct (Qle_bool x 0); [done|].
  apply Qmult_le_0_compat; [|apply Qlt_le_weak, pow2_pos].
  rewrite <- (Zle_Qle 0).
  pose proof (Z.sqrt_nonneg
    (Qfloor (x / (2 ^ (ilog2 x / 2 - 52) * 2 ^ (ilog2 x / 2 - 52))))).
  case_match; lia.
Qed.

Lemma Q2R_inject_Z n : Q2R (inject_Z n) = IZR n.
Proof. unfold Q2R. simpl. field. Qed.

(** The float64 square root is within 2^-53 of its magnitude of the square
    root. *)
Lemma float64_sqrt_close x :
  (0 <= x)%Q ->
  (sqrt (Q2R x) * (1 - 1 / 9007199254740992) <= Q2R (float64_sqrt x)
   <= sqrt (Q2R x) * (1 + 1 / 9007199254740992))%R.
Proof.
  intros Hx. unfold float64_sqrt. destruct (Qle_bool x 0) eqn:E.
  { apply Qle_bool_iff in E.
    assert (x == 0)%Q as H0 by (by apply Qle_antisym).
    rewrite (Qeq_eqR _ _ H0). unfold Q2R. simpl.
    rewrite Rmult_0_l, sqrt_0. lra. }
  assert (0 < x)%Q as Hpos.
  { destruct (Qlt_le_dec 0 x) as [|Hle]; [done|].
    apply Qle_bool_iff in Hle. congruence. }
  pose proof (ilog2_le x Hpos) as HL.
  set (p := ilog2 x / 2).
  assert (2 * p <= ilog2 x) as Hp by (apply Z.mul_div_le; lia).
  set (ulp := (2 ^ (p - 52))%Q).
  assert (0 < ulp)%Q as Hulp by apply pow2_pos.
  assert (ulp == 2 ^ p * (1 # 4503599627370496))%Q as Hu.
  { unfold ulp. rewrite Qpower_minus by done. done. }
  assert (2 ^ p * 2 ^ p <= x)%Q as Hpp.
  { rewrite <- Qpower_plus by done.
    eapply Qle_trans; [apply Qpower_le_compat_l|exact HL]; [lia|done]. }
  assert (~ ulp == 0)%Q as Hnz.
  { intros H. rewrite H in Hulp. by apply Qlt_irrefl in Hulp. }
  set (t := (x / (ulp * ulp))%Q).
  assert (x == t * (ulp * ulp))%Q as Hxt by (unfold t; by field).
  assert (0 <= t)%Q as Ht.
  { apply Qle_shift_div_l.
    - apply (Qmult_lt_0_compat _ _ Hulp Hulp).
    - by rewrite Qmult_0_l. }
  set (f := Qfloor t).
  assert (0 <= f) as Hf.
  { change 0 with (Qfloor 0). by apply Qfloor_resp_le. }
  set (r := Z.sqrt f).
  destruct (Z.sqrt_spec f Hf) as [Hlo Hhi]. fold r in Hlo, Hhi.
  assert (0 <= r) as Hr by apply Z.sqrt_nonneg.
  (* to the reals *)
  set (T := Q2R t). set (U := Q2R ulp). set (R0 := IZR r).
  assert (0 <= R0)%R as HR0 by (by apply IZR_le).
  assert (0 < U)%R as HU.
  { apply Qlt_Rlt in Hulp. unfold Q2R in Hulp at 1. simpl in Hulp.
    by rewrite Rmult_0_l in Hulp. }
  assert (R0 * R0 <= T /\ T < (R0 + 1) * (R0 + 1))%R as [HT1 HT2].
  { pose proof (Qle_Rle _ _ (Qfloor_le t)) as H1.
    pose proof (Qlt_Rlt _ _ (Qlt_floor t)) as H2.
    rewrite Q2R_inject_Z in H1, H2. fold f T in H1, H2.
    assert (IZR (r * r) <= IZR f)%R as H3 by (by apply IZR_le).
    assert (IZR (f + 1) <= IZR ((r + 1) * (r + 1)))%R as H4
      by (apply IZR_le; unfold Z.succ in Hhi; lia).
    rewrite mult_IZR in H3. rewrite mult_IZR, !plus_IZR in H4.
    rewrite plus_IZR in H2. unfold R0. split; lra. }
  assert (0 <= T)%R as HT0 by nra.
  assert (R0 <= sqrt T < R0 + 1)%R as [HS1 HS2].
  { split.
    - rewrite <- (sqrt_square R0) at 1 by done. by apply sqrt_le_1_alt.
    - rewrite <- (sqrt_square (R0 + 1)) by lra.
      apply sqrt_lt_1_alt. split; [done|]. done. }
  set (P := Q2R (2 ^ p)).
  assert (U = P * / 4503599627370496)%R as HUP.
  { unfold U, P. rewrite (Qeq_eqR _ _ Hu), Q2R_mult. f_equal.
    unfold Q2R. simpl. lra. }
  assert (0 < P)%R as HP by lra.
  assert (Q2R x = T * (U * U))%R as HX.
  { unfold T, U. by rewrite (Qeq_eqR _ _ Hxt), !Q2R_mult. }
  assert (sqrt (Q2R x) = sqrt T * U)%R as HSX.
  { rewrite HX, sqrt_mult by nra. f_equal. apply sqrt_square. lra. }
  assert (P <= sqrt (Q2R x))%R as HPX.
  { rewrite <- (sqrt_square P) by lra. apply sqrt_le_1_alt.
    apply Qle_Rle in Hpp. by rewrite Q2R_mult in Hpp. }
  rewrite Q2R_mult. fold U. rewrite Q2R_inject_Z. rewrite HSX in *.
  assert (R0 * U <= sqrt T * U)%R as HM1
    by (apply Rmult_le_compat_r; lra).
  assert (sqrt T * U <= R0 * U + U)%R as HM2.
  { replace (R0 * U + U)%R with ((R0 + 1) * U)%R by ring.
    apply Rmult_le_compat_r; lra. }
  set (h := (inject_Z r + (1 # 2))%Q).
  assert (Q2R (h * h) = (R0 + / 2) * (R0 + / 2))%R as Hh.
  { unfold h. rewrite Q2R_mult, Q2R_plus, Q2R_inject_Z. fold R0.
    unfold Q2R. simpl. lra. }
  destruct (Qle_bool (h * h) t) eqn:Eh.
  - apply Qle_bool_iff, Qle_Rle in Eh. rewrite Hh in Eh. fold T in Eh.
    assert (R0 + / 2 <= sqrt T)%R as HS3.
    { rewrite <- (sqrt_square (R0 + / 2)) by lra. by apply sqrt_le_1_alt. }
    assert (R0 * U + U / 2 <= sqrt T * U)%R as HM3.
    { replace (R0 * U + U / 2)%R with ((R0 + / 2) * U)%R by field.
      apply Rmult_le_compat_r; lra. }
    rewrite plus_IZR. fold R0.
    replace ((R0 + 1) * U)%R with (R0 * U + U)%R by ring.
    revert HM2 HM3 HPX HUP HP. generalize (sqrt T * U)%R. intros SX.
    generalize (R0 * U)%R. intros. split; lra.
  - assert (T < (R0 + / 2) * (R0 + / 2))%R as Eh'.
    { rewrite <- Hh. apply Qlt_Rlt.
      destruct (Qlt_le_dec t (h * h)) as [|Hle]; [done|].
      apply Qle_bool_iff in Hle. congruence. }
    assert (sqrt T < R0 + / 2)%R as HS3.
    { rewrite <- (sqrt_square (R0 + / 2)) by lra.
      apply sqrt_lt_1_alt. split; [done|]. done. }
    assert (sqrt T * U <= R0 * U + U / 2)%R as HM3.
    { replace (R0 * U + U / 2)%R with ((R0 + / 2) * U)%R by field.
      apply Rmult_le_compat_r; lra. }
    fold R0.
    revert HM1 HM3 HPX HUP HP. generalize (sqrt T * U)%R. intros SX.
    generalize (R0 * U)%R. intros. split; lra.
Qed.

Lemma to_float64_close_R x :
  (0 <= x)%Q ->
  (Q2R x * (1 - 1 / 9007199254740992) <= Q2R (to_float64 x)
   <= Q2R x * (1 + 1 / 9007199254740992))%R.
Proof.
  intros Hx. destruct (to_float64_close x Hx) as [Hlo Hhi].
  apply Qle_Rle in Hlo, Hhi.
  rewrite Q2R_mult in Hlo, Hhi.
  rewrite Q2R_minus in Hlo. rewrite Q2R_plus in Hhi.
  change (2 ^ 53)%positive with 9007199254740992%positive in Hlo, Hhi.
  assert (Q2R 1 = 1)%R as H1 by (unfold Q2R; simpl; lra).
  assert (Q2R (1 # 9007199254740992) = 1 / 9007199254740992)%R as Hu
    by (unfold Q2R; simpl; lra).
  rewrite H1, Hu in Hlo, Hhi. done.
Qed.

Lemma float64_column_exact z : Z.abs z <= 2 ^ 53 -> float64_column z = z.
Proof. intros Hz. by apply astype_int_Z, to_float64_Z. Qed.

(* ===================================================================== *)
(** ** Order Book Normalizer                                              *)
(* ===================================================================== *)

Lemma key_of_row_of k q : key_of (row_of (k, q)) = k.
Proof. by destruct k as [[[[[[[[? ?] ?] ?] ?] ?] ?] ?] ?]. Qed.

Lemma quantity_row_of k q : quantity (row_of (k, q)) = q.
Proof. by destruct k as [[[[[[[[? ?] ?] ?] ?] ?] ?] ?] ?]. Qed.

Lemma group_add_keys k q gs :
  (group_add k q gs).*1 = if decide (k ∈ gs.*1) then gs.*1 else gs.*1 ++ [k].
Proof.
  induction gs as [|[k' q'] gs IH].
  - destruct (decide (k ∈ ([] : list (group_key * Z)).*1)) as [Hin|_]; [|done].
    by apply elem_of_nil in Hin.
  - cbn [group_add]. destruct (decide (k = k')) as [->|Hne].
    + rewrite decide_True; [done | left].
    + rewrite fmap_cons, IH. cbn [fst].
      destruct (decide (k ∈ gs.*1)) as [Hin|Hnin].
      * rewrite decide_True; [done | rewrite fmap_cons; by right].
      * rewrite decide_False; [done |].
        rewrite fmap_cons. intros [?|?]%elem_of_cons; done.
Qed.

Lemma group_add_NoDup k q gs : NoDup gs.*1 -> NoDup (group_add k q gs).*1.
Proof.
  intros H. rewrite group_add_keys. case_decide; [done |].
  apply NoDup_app. split_and!; [done | | apply NoDup_singleton].
  intros x Hx Hk%list_elem_of_singleton. by subst.
Qed.

Lemma groups_of_snoc rows r :
  groups_of (rows ++ [r]) = group_add (key_of r) (quantity r) (groups_of rows).
Proof. unfold groups_of. by rewrite foldl_app. Qed.

Lemma groups_of_NoDup rows : NoDup (groups_of rows).*1.
Proof.
  induction rows as [|r rows IH] using rev_ind.
  - apply NoDup_nil_2.
  - rewrite groups_of_snoc. by apply group_add_NoDup.
Qed.

Lemma groups_of_keys rows k :
  k ∈ (groups_of rows).*1 <-> exists r, r ∈ rows /\ key_of r = k.
Proof.
  induction rows as [|r rows IH] using rev_ind.
  - split; [intros []%elem_of_nil | intros (r & []%elem_of_nil & _)].
  - rewrite groups_of_snoc, group_add_keys. split.
    + intros H. case_decide as Hin.
      * apply IH in H as (r0 & ? & ?). exists r0. split; [|done].
        apply elem_of_app. by left.
      * apply elem_of_app in H as [H|H].
        -- apply IH in H as (r0 & ? & ?). exists r0. split; [|done].
           apply elem_of_app. by left.
        -- apply list_elem_of_singleton in H. exists r. split; [|done].
           apply elem_of_app. right. left.
    + intros (r0 & [Hr0|Hr0]%elem_of_app & Hk).
      * assert (k ∈ (groups_of rows).*1) by (apply IH; eauto).
        case_decide; [done | apply elem_of_app; by left].
      * apply list_elem_of_singleton in Hr0. subst r0 k.
        case_decide; [done | apply elem_of_app; right; left].
Qed.

Lemma group_lookup_add k' k q gs :
  group_lookup k' (group_add k q gs) =
    if decide (k' = k)
    then Some (match group_lookup k gs with
               | Some q0 => int64 (q0 + q)
               | None => q
               end)
    else group_lookup k' gs.
Proof.
  induction gs as [|[k0 q0] gs IH]; simpl.
  - repeat case_decide; congruence.
  - destruct (decide (k = k0)) as [->|Hne]; simpl.
    + repeat case_decide; congruence.
    + rewrite IH. repeat case_decide; congruence.
Qed.

Lemma group_lookup_None k gs : group_lookup k gs = None <-> k ∉ gs.*1.
Proof.
  induction gs as [|[k0 q0] gs IH]; simpl.
  - split; [intros _; apply not_elem_of_nil | done].
  - case_decide as Hk.
    + subst. split; [done | intros []; left].
    + rewrite IH. split.
      * intros ? [?|?]%elem_of_cons; done.
      * intros H ?. apply H. by right.
Qed.

Lemma group_lookup_elem k q gs :
  NoDup gs.*1 -> (k, q) ∈ gs -> group_lookup k gs = Some q.
Proof.
  induction gs as [|[k0 q0] gs IH]; simpl; intros Hnd Hin.
  - by apply elem_of_nil in Hin.
  - apply NoDup_cons in Hnd as [Hk0 Hnd].
    apply elem_of_cons in Hin as [[= -> ->]|Hin].
    + by rewrite decide_True.
    + rewrite decide_False; [by apply IH |].
      intros ->. apply Hk0. apply list_elem_of_fmap. by exists (k0, q).
Qed.

Lemma total_snoc k rows r :
  total k (rows ++ [r]) =
    total k rows + (if decide (key_of r = k) then quantity r else 0).
Proof.
  unfold total. rewrite filter_app, map_app, foldr_app.
  rewrite filter_cons, filter_nil.
  generalize (map quantity (filter (fun r0 => key_of r0 = k) rows)).
  intros l. case_decide; simpl.
  - induction l as [|x l IH]; simpl; [lia | rewrite IH; lia].
  - rewrite Z.add_0_r. done.
Qed.

Lemma total_absent k rows :
  (forall r, r ∈ rows -> key_of r <> k) -> total k rows = 0.
Proof.
  intros H. unfold total.
  replace (filter (fun r => key_of r = k) rows) with (@nil market_row); [done|].
  symmetry. induction rows as [|r rows IH]; [done|].
  rewrite filter_cons, decide_False; [|apply H; left].
  apply IH. intros ? ?. apply H. by right.
Qed.

Lemma groups_of_total rows k q :
  Forall (fun r => in_int64 (quantity r)) rows ->
  (k, q) ∈ groups_of rows -> q = int64 (total k rows).
Proof.
  intros Hq Hin.
  apply group_lookup_elem in Hin; [|apply groups_of_NoDup].
  revert q Hin. induction rows as [|r rows IH] using rev_ind; intros q.
  - done.
  - apply Forall_app in Hq as [Hq Hr]. rewrite Forall_singleton in Hr.
    rewrite groups_of_snoc, group_lookup_add, total_snoc.
    case_decide as Hk.
    + subst k. rewrite decide_True by done.
      destruct (group_lookup (key_of r) (groups_of rows)) as [q0|] eqn:E.
      * intros [= <-]. rewrite (IH Hq q0 eq_refl). apply int64_add_l.
      * intros [= <-]. apply group_lookup_None in E.
        rewrite total_absent, Z.add_0_l, int64_id; [done | done |].
        intros r0 Hr0 Heq. apply E, groups_of_keys. eauto.
    + rewrite decide_False by done. rewrite Z.add_0_r. by apply IH.
Qed.

Lemma groupby_sum_keys rows : key_of <$> groupby_sum rows = (groups_of rows).*1.
Proof.
  unfold groupby_sum. rewrite <- list_fmap_compose.
  apply list_fmap_ext. intros _ [k q] _. apply key_of_row_of.
Qed.

Lemma groupby_sum_elem rows r :
  r ∈ groupby_sum rows ->
  (exists r0, r0 ∈ rows /\ key_of r0 = key_of r) /\
  (key_of r, quantity r) ∈ groups_of rows.
Proof.
  unfold groupby_sum. intros ([k q] & -> & Hin)%list_elem_of_fmap.
  rewrite key_of_row_of, quantity_row_of. split; [|done].
  apply groups_of_keys, list_elem_of_fmap. by exists (k, q).
Qed.

Lemma normalize_elem item ts orders r :
  r ∈ normalize item ts orders ->
  exists o, o ∈ orders /\ key_of (attach item ts o) = key_of r.
Proof.
  intros [(r0 & Hr0 & Hk) _]%groupby_sum_elem.
  apply list_elem_of_fmap in Hr0 as (o & -> & Ho). eauto.
Qed.

(** The item's name, type label and volume are the same in every record of
    a normalized pool. *)
Lemma normalize_item_columns item ts orders r :
  r ∈ normalize item ts orders ->
  itemName r = item_name item /\ itemTypeStr r = capitalize ts /\
  itemVolume r = item_volume item.
Proof.
  intros (o & _ & Hk)%normalize_elem.
  unfold key_of in Hk. simpl in Hk. by simplify_eq.
Qed.

(** No two records of a normalized pool agree on all the fields other than
    the quantity; every raw order is represented by the record with its
    values of these fields, and the quantity of a record is the 64-bit sum
    of the quantities of the raw orders that agree with it on all of
    them. *)
Lemma normalize_unique item ts orders :
  Forall (fun o => in_int64 (raw_quantity o)) orders ->
  NoDup (key_of <$> normalize item ts orders) /\
  (forall o, o ∈ orders ->
     exists r, r ∈ normalize item ts orders /\
               key_of r = key_of (attach item ts o)) /\
  (forall r, r ∈ normalize item ts orders ->
     (exists o, o ∈ orders /\ key_of (attach item ts o) = key_of r) /\
     quantity r = int64 (total (key_of r) (attach item ts <$> orders))).
Proof.
  intros Hq. split_and!.
  - unfold normalize. rewrite groupby_sum_keys. apply groups_of_NoDup.
  - intros o Ho.
    assert (key_of (attach item ts o)
              ∈ key_of <$> normalize item ts orders) as Hin.
    { unfold normalize. rewrite groupby_sum_keys. apply groups_of_keys.
      exists (attach item ts o). split; [|done].
      apply list_elem_of_fmap. eauto. }
    apply list_elem_of_fmap in Hin as (r & ? & ?). eauto.
  - intros r Hr. split; [by apply normalize_elem|].
    apply groupby_sum_elem in Hr as [_ Hr].
    apply groups_of_total in Hr; [done|].
    apply Forall_fmap. eapply Forall_impl; [exact Hq|]. by intros o.
Qed.

(** Among such orders the key of the specification decides all the fields
    the code groups by. *)
Lemma order_key_key_of item ts orders o1 o2 :
  consistent orders -> o1 ∈ orders -> o2 ∈ orders ->
  order_key (attach item ts o1) = order_key (attach item ts o2) ->
  key_of (attach item ts o1) = key_of (attach item ts o2).
Proof.
  intros Hc Ho1 Ho2. unfold order_key, key_of. simpl. intros [= Hi Hcl Hp].
  destruct (Hc o1 o2 Ho1 Ho2) as [Hclaim Hitem].
  destruct (Hclaim Hcl) as [-> ->]. rewrite (Hitem Hi). congruence.
Qed.

Lemma key_of_order_key r1 r2 : key_of r1 = key_of r2 -> order_key r1 = order_key r2.
Proof. unfold key_of, order_key. congruence. Qed.

Lemma filter_ext_elem {A} (P Q : A -> Prop) `{forall x, Decision (P x)}
    `{forall x, Decision (Q x)} (l : list A) :
  (forall x, x ∈ l -> P x <-> Q x) -> filter P l = filter Q l.
Proof.
  induction l as [|x l IH]; [done|]. intros Hiff.
  rewrite !filter_cons, IH by (intros y Hy; apply Hiff; by right).
  destruct (Hiff x ltac:(left)). repeat case_decide; tauto.
Qed.

(** C4: where the orders of a book name claims and items consistently (a
    claim has one name and one region, an item one type code), no two
    records of the normalized pool share the key (item id, location id,
    price); every raw order is represented by the record with its key, and
    the quantity of a record is the 64-bit sum of the quantities of the raw
    orders that share its key: they are collapsed into that one record. *)
Theorem normalize_order_key_unique item ts orders :
  consistent orders ->
  Forall (fun o => in_int64 (raw_quantity o)) orders ->
  NoDup (order_key <$> normalize item ts orders) /\
  (forall o, o ∈ orders ->
     exists r, r ∈ normalize item ts orders /\
               order_key r = order_key (attach item ts o)) /\
  (forall r, r ∈ normalize item ts orders ->
     (exists o, o ∈ orders /\ order_key (attach item ts o) = order_key r) /\
     quantity r
     = int64 (sumZ (quantity <$>
                      filter (fun r' => order_key r' = order_key r)
                             (attach item ts <$> orders)))).
Proof.
  intros Hc Hq.
  destruct (normalize_unique item ts orders Hq) as (Hnd & Hall & Hsum).
  split_and!.
  - set (g := fun k : group_key =>
                let '(_, _, i, _, _, p, c, _, _) := k in (i, c, p)).
    replace (order_key <$> normalize item ts orders)
      with (g <$> (key_of <$> normalize item ts orders)).
    2: { rewrite <- list_fmap_compose. by apply list_fmap_ext. }
    apply NoDup_fmap_2_strong; [|done].
    intros k1 k2 (r1 & -> & Hr1)%list_elem_of_fmap
                 (r2 & -> & Hr2)%list_elem_of_fmap Heq.
    apply normalize_elem in Hr1 as (o1 & Ho1 & Hk1).
    apply normalize_elem in Hr2 as (o2 & Ho2 & Hk2).
    rewrite <- Hk1, <- Hk2 in Heq |- *.
    by apply (order_key_key_of item ts orders).
  - intros o Ho. destruct (Hall o Ho) as (r & Hr & Hk).
    exists r. split; [done|]. by apply key_of_order_key.
  - intros r Hr. destruct (Hsum r Hr) as [(o & Ho & Hk) Hquantity].
    split; [exists o; split; [done|]; by apply key_of_order_key|].
    rewrite Hquantity. unfold total, sumZ. do 3 f_equal.
    apply filter_ext_elem.
    intros r' (o' & -> & Ho')%list_elem_of_fmap.
    rewrite <- (key_of_order_key _ _ Hk), <- Hk. split.
    + apply key_of_order_key.
    + by apply order_key_key_of with orders.
Qed.

(** The buy orders of the planks: the two orders of B at 15 become one
    record of 100 planks beside the order of C. *)
Lemma sample_consistent : consistent (buyOrders Sample.plank_market).
Proof.
  intros o1 o2 H1 H2. simpl in H1, H2.
  repeat (apply elem_of_cons in H1 as [->|H1]);
    try (by apply elem_of_nil in H1);
    repeat (apply elem_of_cons in H2 as [->|H2]);
    try (by apply elem_of_nil in H2);
    by split.
Qed.

Lemma normalize_order_key_unique_witness :
  consistent (buyOrders Sample.plank_market) /\
  Forall (fun o => in_int64 (raw_quantity o))
    (buyOrders Sample.plank_market) /\
  NoDup (order_key <$> normalize Sample.plank "item"
                         (buyOrders Sample.plank_market)) /\
  (forall r, r ∈ normalize Sample.plank "item"
                   (buyOrders Sample.plank_market) ->
     (exists o, o ∈ buyOrders Sample.plank_market /\
                order_key (attach Sample.plank "item" o) = order_key r) /\
     quantity r
     = int64 (sumZ (quantity <$>
                      filter (fun r' => order_key r' = order_key r)
                             (attach Sample.plank "item"
                                <$> buyOrders Sample.plank_market)))).
Proof.
  assert (Forall (fun o => in_int64 (raw_quantity o))
            (buyOrders Sample.plank_market)) as Hq
    by (repeat constructor; vm_compute; congruence).
  split; [exact sample_consistent|]. split; [exact Hq|].
  destruct (normalize_order_key_unique Sample.plank "item"
              (buyOrders Sample.plank_market) sample_consistent Hq)
    as (Hnd & _ & Hsum).
  split; [exact Hnd | exact Hsum].
Defined.

(** The consistency of the names is needed: two raw orders of one item at
    one location and one price that spell the name of the location
    differently stay two records with one key. *)
Lemma normalize_shares_order_key :
  ~ consistent Sample.renamed /\
  ~ NoDup (order_key <$> normalize Sample.plank "item" Sample.renamed).
Proof.
  split.
  - intros Hc.
    destruct (Hc (Sample.order 7 15 50 "B" "Bee" "North")
                 (Sample.order 7 15 50 "B" "Bea" "North")) as [Hn _];
      [left | right; left |].
    by destruct (Hn eq_refl).
  - vm_compute. intros H. apply NoDup_cons in H as [H _].
    apply H. left.
Qed.

(* ===================================================================== *)
(** ** Arbitrage Matcher                                                  *)
(* ===================================================================== *)

Lemma merge_elem all_sells all_buys m :
  m ∈ merge all_sells all_buys <->
  sell m ∈ all_sells /\ buy m ∈ all_buys /\ join_key (sell m) = join_key (buy m).
Proof.
  unfold merge. rewrite list_elem_of_bind. split.
  - intros (s & Hm & Hs). apply list_elem_of_fmap in Hm as (b & -> & Hb).
    apply list_elem_of_filter in Hb as [Hk Hb]. done.
  - intros (Hs & Hb & Hk). exists (sell m). split; [|done].
    apply list_elem_of_fmap. exists (buy m). split; [by destruct m|].
    by apply list_elem_of_filter.
Qed.

Lemma matcher_elem claim_id all_sells all_buys t :
  t ∈ matcher claim_id all_sells all_buys <->
  t = profitability (pair t) /\ pair t ∈ merge all_sells all_buys /\
  touches claim_id (pair t) /\ 0 < Unit_Profit t.
Proof.
  unfold matcher. rewrite list_elem_of_filter, list_elem_of_fmap. split.
  - intros (Hp & m & -> & [Ht Hm]%list_elem_of_filter). done.
  - intros (Ht & Hm & Hh & Hp). split; [done|]. exists (pair t).
    split; [done|]. by apply list_elem_of_filter.
Qed.

(** The rows of [full_df] are rows the matcher produced from the two
    normalized pools of an item whose order book was fetched. *)
Lemma collect_elem claim_id request item_list t :
  t ∈ collect claim_id request item_list ->
  exists item ts m,
    item ∈ item_list /\ item_type_str (item_type item) = Some ts /\
    request ts (item_id item) = Some m /\
    t ∈ matcher claim_id (normalize item ts (sellOrders m))
                         (normalize item ts (buyOrders m)).
Proof.
  unfold collect. rewrite list_elem_of_bind. intros (item & Ht & Hitem).
  unfold process_item in Ht.
  destruct (item_type_str (item_type item)) as [ts|] eqn:Ets;
    [|by apply elem_of_nil in Ht].
  simpl in Ht. destruct (request ts (item_id item)) as [m|] eqn:Em;
    [|by apply elem_of_nil in Ht].
  case_decide; [by apply elem_of_nil in Ht|].
  by exists item, ts, m.
Qed.


(** C7: every row of [full_df] has the home claim as its selling or as its
    buying claim. *)
Theorem collect_touches_home claim_id request item_list t :
  t ∈ collect claim_id request item_list ->
  sellClaimEntityId (pair t) = claim_id \/ buyClaimEntityId (pair t) = claim_id.
Proof.
  intros (item & ts & m & _ & _ & _ & Ht)%collect_elem.
  apply matcher_elem in Ht as (_ & _ & Hhome & _).
  unfold touches in Hhome. exact Hhome.
Qed.

Lemma normalize_price item ts orders r :
  Forall price_ok orders -> r ∈ normalize item ts orders ->
  0 <= priceThreshold r < 2 ^ 63.
Proof.
  intros Hok (o & Ho & Hk)%normalize_elem.
  rewrite Forall_forall in Hok. specialize (Hok o Ho).
  unfold key_of in Hk. simpl in Hk. simplify_eq.
  unfold price_ok in Hok. congruence.
Qed.

(** C6: the unit profit of every row of [full_df] is the buying price less
    the selling price and is positive, so the buying price exceeds the
    selling price; prices are the non-negative 64-bit integers of the data
    model. *)
Theorem collect_profit_positive claim_id request item_list t :
  (forall ts id m, request ts id = Some m ->
     Forall price_ok (buyOrders m ++ sellOrders m)) ->
  t ∈ collect claim_id request item_list ->
  Unit_Profit t = Buying_Price (pair t) - Selling_Price (pair t) /\
  0 < Unit_Profit t /\
  Selling_Price (pair t) < Buying_Price (pair t).
Proof.
  intros Hok (item & ts & m & _ & _ & Hm & Ht)%collect_elem.
  apply matcher_elem in Ht as (Hprof & Hpair & _ & Hpos).
  apply merge_elem in Hpair as (Hs & Hb & _).
  specialize (Hok _ _ _ Hm). apply Forall_app in Hok as [Hbuy Hsell].
  pose proof (normalize_price _ _ _ _ Hsell Hs) as Hps.
  pose proof (normalize_price _ _ _ _ Hbuy Hb) as Hpb.
  assert (Unit_Profit t = Buying_Price (pair t) - Selling_Price (pair t))
    as Hup.
  { rewrite Hprof at 1. simpl. apply int64_id.
    unfold in_int64, Buying_Price, Selling_Price. lia. }
  split_and!; [done | done | lia].
Qed.

(* ===================================================================== *)
(** ** Capacity Model                                                     *)
(* ===================================================================== *)

Lemma room_effective vehicle label :
  room vehicle label = effective_capacity vehicle player_capacity label.
Proof.
  unfold room, effective_capacity, base_item_qty, base_cargo_qty.
  repeat case_decide; lia.
Qed.

Lemma room_nonneg name vehicle label :
  (name, vehicle) ∈ vehicle_capacity -> 0 <= room vehicle label.
Proof.
  unfold vehicle_capacity. intros H.
  repeat (apply elem_of_cons in H as [H|H]);
    [..| by apply elem_of_nil in H];
    injection H as _ ->;
    unfold room, base_item_qty, base_cargo_qty; simpl;
    repeat case_decide; lia.
Qed.

Lemma room_le name vehicle label :
  (name, vehicle) ∈ vehicle_capacity -> room vehicle label <= 606000.
Proof.
  unfold vehicle_capacity. intros H.
  repeat (apply elem_of_cons in H as [H|H]);
    [..| by apply elem_of_nil in H];
    injection H as _ ->;
    unfold room, base_item_qty, base_cargo_qty; simpl;
    repeat case_decide; lia.
Qed.

(** C1: for every row and every vehicle of [vehicle_capacity], with a
    positive item volume and a trade quantity that the float64 column of
    line 285 holds exactly (one not below -2^53), the vehicle's quantity is
    the smaller of the trade quantity and floor(effective capacity / item
    volume), hence at most each of them, and its profit is that quantity
    times the unit profit (a product within the 64-bit range). *)
Theorem vehicle_row_capped name vehicle r :
  (name, vehicle) ∈ vehicle_capacity ->
  0 < itemVolume (sell (pair (deal r))) ->
  - 2 ^ 53 <= Trade_Quantity (deal r) ->
  in_int64
    (Z.min (Trade_Quantity (deal r))
       (effective_capacity vehicle player_capacity
          (itemTypeStr (sell (pair (deal r))))
        / itemVolume (sell (pair (deal r))))
     * Unit_Profit (deal r)) ->
  exists cols,
    vehicle_row vehicle r = Some cols /\
    Quantity cols
      = Z.min (Trade_Quantity (deal r))
          (effective_capacity vehicle player_capacity
             (itemTypeStr (sell (pair (deal r))))
           / itemVolume (sell (pair (deal r)))) /\
    Profit cols = Quantity cols * Unit_Profit (deal r) /\
    Quantity cols <= Trade_Quantity (deal r) /\
    Quantity cols
      <= effective_capacity vehicle player_capacity
           (itemTypeStr (sell (pair (deal r))))
         / itemVolume (sell (pair (deal r))).
Proof.
  intros Hv Hvol Htq Hprod. unfold vehicle_row, int_div.
  rewrite decide_False by lia. simpl.
  pose proof (room_nonneg _ _ (itemTypeStr (sell (pair (deal r)))) Hv) as H0.
  pose proof (room_le _ _ (itemTypeStr (sell (pair (deal r)))) Hv) as H1.
  rewrite Z.quot_div_nonneg by lia.
  rewrite room_effective in *.
  set (cap := effective_capacity vehicle player_capacity
                (itemTypeStr (sell (pair (deal r))))) in *.
  set (vol := itemVolume (sell (pair (deal r)))) in *.
  assert (0 <= cap / vol <= 606000) as Hquot.
  { split; [apply Z.div_pos; lia|].
    apply Z.div_le_upper_bound; nia. }
  rewrite float64_column_exact by lia.
  eexists. split; [reflexivity|]. simpl.
  split_and!; [done | by apply int64_id | lia | lia].
Qed.

(* ===================================================================== *)
(** ** Distance Resolver                                                  *)
(* ===================================================================== *)

Lemma unique_snoc {A} `{EqDecision A} (l : list A) x :
  unique (l ++ [x])
  = if decide (x ∈ unique l) then unique l else unique l ++ [x].
Proof. unfold unique. by rewrite foldl_app. Qed.

(** [unique] lists every value once. *)
Lemma unique_spec {A} `{EqDecision A} (l : list A) :
  NoDup (unique l) /\ forall x, x ∈ unique l <-> x ∈ l.
Proof.
  induction l as [|y l [IHn IHe]] using rev_ind.
  - split; [apply NoDup_nil_2 | done].
  - rewrite unique_snoc. case_decide as Hy; split; try done.
    + intros x. rewrite elem_of_app, list_elem_of_singleton, IHe.
      split; [tauto|]. intros [?|Hx]; [done | subst x; by apply IHe].
    + apply NoDup_app. split_and!; [done | | apply NoDup_singleton].
      intros x Hx Hxy%list_elem_of_singleton. by subst.
    + intros x. rewrite !elem_of_app, IHe. done.
Qed.

Lemma resolve_snoc X0 Z0 request claims id :
  resolve X0 Z0 request (claims ++ [id])
  = resolve_step X0 Z0 request (resolve X0 Z0 request claims) id.
Proof. unfold resolve. by rewrite foldl_app. Qed.

(** The dictionary holds the distance of exactly the listed claims whose
    query succeeded. *)
Lemma resolve_lookup X0 Z0 request claims id :
  resolve X0 Z0 request claims !! id
  = if decide (id ∈ claims) then dist X0 Z0 <$> request id else None.
Proof.
  induction claims as [|c claims IH] using rev_ind.
  - rewrite decide_False; [done | apply not_elem_of_nil].
  - rewrite resolve_snoc. unfold resolve_step.
    destruct (decide (id = c)) as [->|Hne].
    + rewrite decide_True by (apply elem_of_app; right; left).
      destruct (request c) as [claim|] eqn:E.
      * by rewrite lookup_insert_eq.
      * rewrite IH. by case_decide.
    + assert (id ∈ claims ++ [c] <-> id ∈ claims) as Hiff.
      { rewrite elem_of_app, list_elem_of_singleton. tauto. }
      destruct (request c) as [claim|] eqn:E.
      * rewrite lookup_insert_ne by done. rewrite IH.
        repeat case_decide; tauto.
      * rewrite IH. repeat case_decide; tauto.
Qed.

(** The value of line 221 is the float64 nearest to a hundredth that is
    within 1/200 + 10^-8 of sqrt(s)/3, as long as [s] is at most 2^51. *)
Lemma round2_sqrt_div3_spec s :
  0 <= s <= 2 ^ 51 ->
  exists k,
    round2_sqrt_div3 s = to_float64 (k # 100) /\ 0 <= k /\
    (Rabs (Q2R (k # 100) - sqrt (IZR s) / 3) <= 1 / 200 + 1 / 100000000)%R /\
    (Rabs (Q2R (round2_sqrt_div3 s) - sqrt (IZR s) / 3)
     <= 1 / 200 + 1 / 100000000)%R.
Proof.
  intros Hs. unfold round2_sqrt_div3, round2.
  set (s0 := to_float64 (inject_Z s)).
  assert (0 <= inject_Z s)%Q as Hs0 by (rewrite <- (Zle_Qle 0); lia).
  assert (0 <= s0)%Q as Hs0' by (by apply to_float64_nonneg).
  assert (Q2R s0 = IZR s) as Hs0R.
  { unfold s0. rewrite (Qeq_eqR _ _ (to_float64_Z s ltac:(lia))).
    apply Q2R_inject_Z. }
  set (y0 := float64_sqrt s0).
  pose proof (float64_sqrt_nonneg s0) as Hy0. fold y0 in Hy0.
  pose proof (float64_sqrt_close s0 Hs0') as Hc0. fold y0 in Hc0.
  rewrite Hs0R in Hc0.
  assert (0 <= y0 / 3)%Q as Hy0'.
  { apply Qle_shift_div_l; [done|]. by rewrite Qmult_0_l. }
  set (y1 := to_float64 (y0 / 3)).
  pose proof (to_float64_nonneg _ Hy0') as Hy1. fold y1 in Hy1.
  pose proof (to_float64_close_R _ Hy0') as Hc1. fold y1 in Hc1.
  assert (0 <= y1 * 100)%Q as Hy1'.
  { apply Qmult_le_0_compat; done. }
  set (y2 := to_float64 (y1 * 100)).
  pose proof (to_float64_nonneg _ Hy1') as Hy2. fold y2 in Hy2.
  pose proof (to_float64_close_R _ Hy1') as Hc2. fold y2 in Hc2.
  set (k := rint y2).
  pose proof (rint_nonneg y2 Hy2) as Hk. fold k in Hk.
  destruct (rint_close y2) as [Hk1 Hk2]. fold k in Hk1, Hk2.
  assert (0 <= k # 100)%Q as Hk' by (unfold Qle; simpl; lia).
  pose proof (to_float64_close_R _ Hk') as Hc3.
  exists k. split; [done|]. split; [done|].
  (* to the reals *)
  apply Qle_Rle in Hk1, Hk2.
  rewrite Q2R_minus in Hk1. rewrite Q2R_plus in Hk2.
  rewrite Q2R_inject_Z in Hk1, Hk2.
  assert (Q2R (1 # 2) = 1 / 2)%R as Hhalf by (unfold Q2R; simpl; lra).
  rewrite Hhalf in Hk1, Hk2.
  assert (Q2R (k # 100) = IZR k / 100)%R as HkR by (unfold Q2R; simpl; lra).
  rewrite HkR in Hc3 |- *.
  assert (Q2R (y0 / 3) = Q2R y0 / 3)%R as Hd.
  { unfold Qdiv. rewrite Q2R_mult. unfold Q2R at 2. simpl. lra. }
  assert (Q2R (y1 * 100) = Q2R y1 * 100)%R as Hm.
  { rewrite Q2R_mult. unfold Q2R at 2. simpl. lra. }
  rewrite Hd in Hc1. rewrite Hm in Hc2.
  assert (0 <= sqrt (IZR s) <= 47453133)%R as HS.
  { split; [apply sqrt_pos|].
    rewrite <- (sqrt_square 47453133) by lra. apply sqrt_le_1_alt.
    rewrite <- mult_IZR. apply IZR_le. lia. }
  revert Hc0 Hc1 Hc2 Hc3 Hk1 Hk2 HS.
  generalize (sqrt (IZR s)), (Q2R y0), (Q2R y1), (Q2R y2), (IZR k),
    (Q2R (to_float64 (k # 100))).
  intros S Y0 Y1 Y2 K V. intros.
  split; apply Rabs_le; split; lra.
Qed.

Lemma round2_sqrt_div3_nonneg s : (0 <= round2_sqrt_div3 s)%Q.
Proof.
  unfold round2_sqrt_div3, round2.
  apply to_float64_nonneg.
  assert (0 <= rint (to_float64
            (to_float64 (float64_sqrt (to_float64 (inject_Z s)) / 3) * 100)))
    as Hk; [|unfold Qle; simpl; lia].
  apply rint_nonneg, to_float64_nonneg, Qmult_le_0_compat; [|done].
  apply to_float64_nonneg, Qle_shift_div_l; [done|].
  rewrite Qmult_0_l. apply float64_sqrt_nonneg.
Qed.

(** C8, as amended: a listed claim whose coordinates were fetched, each at
    most 2^25 from the home coordinate, is mapped to a non-negative
    float64, the one nearest to a number of hundredths; these hundredths,
    and the float64 itself, are within 1/200 + 10^-8 of the distance
    between the home coordinates and the claim's divided by 3.  It is that
    distance over 3 rounded to two decimals as float64 arithmetic rounds
    it: to the nearest hundredth, or to the next one where the quotient
    lies within 10^-8 of the middle between two hundredths. *)
Theorem resolve_distance X0 Z0 request claims id claim :
  id ∈ claims ->
  request id = Some claim ->
  Z.abs (X0 - default 0 (locationX claim)) <= 2 ^ 25 ->
  Z.abs (Z0 - default 0 (locationZ claim)) <= 2 ^ 25 ->
  exists q k,
    resolve X0 Z0 request claims !! id = Some (Finite q) /\
    (0 <= q)%Q /\ 0 <= k /\ q = to_float64 (k # 100) /\
    (Rabs (Q2R (k # 100)
           - sqrt (IZR ((X0 - default 0 (locationX claim)) ^ 2
                        + (Z0 - default 0 (locationZ claim)) ^ 2)%Z) / 3)
     <= 1 / 200 + 1 / 100000000)%R /\
    (Rabs (Q2R q
           - sqrt (IZR ((X0 - default 0 (locationX claim)) ^ 2
                        + (Z0 - default 0 (locationZ claim)) ^ 2)%Z) / 3)
     <= 1 / 200 + 1 / 100000000)%R.
Proof.
  intros Hin Hreq HX HZ. rewrite resolve_lookup, decide_True, Hreq by done.
  unfold dist. simpl.
  destruct (round2_sqrt_div3_spec
              ((X0 - default 0 (locationX claim)) ^ 2
               + (Z0 - default 0 (locationZ claim)) ^ 2))
    as (k & Hq & Hk & Hr1 & Hr2); [nia|].
  eexists _, k. split; [reflexivity|].
  split; [apply round2_sqrt_div3_nonneg|]. split_and!; done.
Qed.

(** C8, as stated, fails: for a home at the origin and a claim at
    (261704, 1084) the hundredth nearest to the distance over 3 is
    87235.41, and the dictionary holds the float64 nearest to 87235.42,
    more than half a hundredth away from the distance over 3. *)
Lemma resolve_distance_next_hundredth :
  resolve 0 0 Far.request ["F"] !! "F"
  = Some (Finite (to_float64 (8723542 # 100))) /\
  (Rabs (Q2R (8723541 # 100)
         - sqrt (IZR ((0 - 261704) ^ 2 + (0 - 1084) ^ 2)%Z) / 3)
   < 1 / 200)%R /\
  (1 / 200
   < Rabs (Q2R (to_float64 (8723542 # 100))
           - sqrt (IZR ((0 - 261704) ^ 2 + (0 - 1084) ^ 2)%Z) / 3))%R.
Proof.
  split; [by vm_compute|].
  change ((0 - 261704) ^ 2 + (0 - 1084) ^ 2) with 68490158672.
  assert (26170624499999995 / 100000000000 < sqrt 68490158672
          < 26170624499999996 / 100000000000)%R as [Hlo Hhi].
  { split.
    - rewrite <- (sqrt_square (26170624499999995 / 100000000000)) by lra.
      apply sqrt_lt_1_alt. lra.
    - rewrite <- (sqrt_square (26170624499999996 / 100000000000)) by lra.
      apply sqrt_lt_1_alt. lra. }
  assert (to_float64 (8723542 # 100) = 5994772415245189 # 68719476736) as ->
    by (by vm_compute).
  unfold Q2R. simpl. split.
  - apply Rabs_def1; lra.
  - rewrite Rabs_right by lra. lra.
Qed.

(* ===================================================================== *)
(** ** Rows of the enriched table                                         *)
(* ===================================================================== *)

Lemma vehicle_row_ratio vehicle r cols :
  vehicle_row vehicle r = Some cols ->
  Profit_per_1k_Dist cols
  = np_round2 (truediv (int64 (1000 * Profit cols)) (Distance r)).
Proof.
  unfold vehicle_row. intros H.
  destruct (int_div _ _) as [qty|]; [|done]. simpl in H. by simplify_eq.
Qed.

(** A ranked row carries the columns of the four vehicles, in the order of
    [vehicle_capacity]. *)
Lemma rank_row_shape r rk :
  rank_row r = Some rk ->
  exists c1 c2 c3 c4,
    rk = {| base := r;
            vehicles := [("Raft", c1); ("Skiff", c2);
                         ("Clipper", c3); ("Cargo Ship", c4)] |} /\
    Forall (fun c => Profit_per_1k_Dist c
                     = np_round2 (truediv (int64 (1000 * Profit c))
                                    (Distance r)))
           [c1; c2; c3; c4].
Proof.
  unfold rank_row. intros H.
  destruct (mapM _ vehicle_capacity) as [cols|] eqn:E; [|done].
  simpl in H. injection H as <-.
  apply mapM_Some in E. unfold vehicle_capacity in E.
  repeat (apply Forall2_cons_inv_l in E as (? & ? & ? & E & ->)).
  apply Forall2_nil_inv_l in E as ->.
  repeat match goal with
  | H : _ ≫= _ = Some _ |- _ =>
      apply bind_Some in H as (? & ?%vehicle_row_ratio & [= <-])
  end.
  simpl. eexists _, _, _, _. split; [reflexivity|].
  repeat constructor; done.
Qed.

Lemma enrich_mapM claim_id dist_dict full_df rows :
  enrich claim_id dist_dict full_df = Some rows ->
  mapM (fun t => rank_row (apply_distance claim_id dist_dict t)) full_df
  = Some rows.
Proof. unfold enrich. by destruct full_df. Qed.

Lemma enrich_elem claim_id dist_dict full_df rows rk :
  enrich claim_id dist_dict full_df = Some rows ->
  rk ∈ rows ->
  exists t, t ∈ full_df /\
            rank_row (apply_distance claim_id dist_dict t) = Some rk.
Proof.
  intros H%enrich_mapM%mapM_Some Hin.
  apply list_elem_of_lookup in Hin as [i Hi].
  destruct (Forall2_lookup_r _ _ _ _ _ H Hi) as (t & Ht & Hrk).
  exists t. split; [|done]. apply list_elem_of_lookup. eauto.
Qed.

Lemma enrich_total claim_id dist_dict full_df rows t :
  enrich claim_id dist_dict full_df = Some rows ->
  t ∈ full_df ->
  exists rk, rk ∈ rows /\
             rank_row (apply_distance claim_id dist_dict t) = Some rk.
Proof.
  intros H%enrich_mapM%mapM_Some Hin.
  apply list_elem_of_lookup in Hin as [i Hi].
  destruct (Forall2_lookup_l _ _ _ _ _ H Hi) as (rk & Hrk & Ht).
  exists rk. split; [|done]. apply list_elem_of_lookup. eauto.
Qed.

(** The columns of a displayed row. *)
Lemma display_cells r c1 c2 c3 c4 :
  display {| base := r;
             vehicles := [("Raft", c1); ("Skiff", c2);
                          ("Clipper", c3); ("Cargo Ship", c4)] |}
  = [ ("Item", Str (itemName (sell (pair (deal r)))));
      ("Item Type", Str (itemTypeStr (sell (pair (deal r)))));
      ("Selling Price", Int (Selling_Price (pair (deal r))));
      ("Selling Quantity", Int (Selling_Quantity (pair (deal r))));
      ("Selling Claim", Str (Selling_Claim (pair (deal r))));
      ("Selling Region", Str (Selling_Region (pair (deal r))));
      ("Buying Price", Int (Buying_Price (pair (deal r))));
      ("Buying Quantity", Int (Buying_Quantity (pair (deal r))));
      ("Buying Claim", Str (Buying_Claim (pair (deal r))));
      ("Buying Region", Str (Buying_Region (pair (deal r))));
      ("Trade Quantity", Int (Trade_Quantity (deal r)));
      ("Unit Profit", Int (Unit_Profit (deal r)));
      ("Distance", Float (Distance r));
      ("Raft Quantity", Int (Quantity c1));
      ("Raft Profit", Int (Profit c1));
      ("Raft Profit per 1k Dist", Float (Profit_per_1k_Dist c1));
      ("Skiff Quantity", Int (Quantity c2));
      ("Skiff Profit", Int (Profit c2));
      ("Skiff Profit per 1k Dist", Float (Profit_per_1k_Dist c2));
      ("Clipper Quantity", Int (Quantity c3));
      ("Clipper Profit", Int (Profit c3));
      ("Clipper Profit per 1k Dist", Float (Profit_per_1k_Dist c3));
      ("Cargo Ship Quantity", Int (Quantity c4));
      ("Cargo Ship Profit", Int (Profit c4));
      ("Cargo Ship Profit per 1k Dist", Float (Profit_per_1k_Dist c4)) ].
Proof. reflexivity. Qed.

(** What the report shows of a ranked row of the pipeline: its distance,
    the Cargo Ship ratio it is sorted by and the names of its two claims. *)
Lemma display_columns r rk :
  rank_row r = Some rk ->
  exists ratio,
    column "Distance" (display rk) = Some (Float (Distance r)) /\
    column "Cargo Ship Profit per 1k Dist" (display rk) = Some (Float ratio) /\
    (exists n, ratio = np_round2 (truediv n (Distance r))) /\
    column "Buying Claim" (display rk)
      = Some (Str (Buying_Claim (pair (deal r)))) /\
    column "Selling Claim" (display rk)
      = Some (Str (Selling_Claim (pair (deal r)))) /\
    (complete_row (display rk) ->
       is_finite (Distance r) = true /\ is_finite ratio = true).
Proof.
  intros (c1 & c2 & c3 & c4 & -> & Hc)%rank_row_shape.
  rewrite display_cells. exists (Profit_per_1k_Dist c4).
  split_and!; [done | done | | done | done |].
  - rewrite !Forall_cons in Hc. destruct Hc as (_ & _ & _ & -> & _). eauto.
  - unfold complete_row. rewrite !Forall_cons. simpl. tauto.
Qed.

(* ===================================================================== *)
(** ** Report Assembler                                                   *)
(* ===================================================================== *)

Lemma replace_inf_cell_isna c :
  isna (replace_inf_cell c) = false <-> complete c.
Proof. destruct c as [| |[| | |]]; simpl; split; done. Qed.

Lemma replace_inf_cell_complete c : complete c -> replace_inf_cell c = c.
Proof. by destruct c as [| |[| | |]]. Qed.

Lemma replace_inf_kept r :
  forallb (fun c => negb (isna c.2)) (replace_inf r) = true <-> complete_row r.
Proof.
  unfold complete_row, replace_inf. induction r as [|c r IH]; simpl.
  - split; [constructor | done].
  - rewrite andb_true_iff, Forall_cons, IH, negb_true_iff.
    by rewrite replace_inf_cell_isna.
Qed.

Lemma replace_inf_complete r : complete_row r -> replace_inf r = r.
Proof.
  unfold complete_row, replace_inf. induction 1 as [|[n c] r Hc _ IH]; simpl.
  - done.
  - rewrite IH. simpl in Hc. by rewrite (replace_inf_cell_complete c).
Qed.

Lemma replace_inf_complete_inv r :
  complete_row (replace_inf r) -> complete_row r.
Proof.
  unfold complete_row, replace_inf. rewrite Forall_fmap.
  intros H. eapply Forall_impl; [exact H|]. by intros [n [| |[| | |]]].
Qed.

(** Lines 307-309 keep the rows without a missing or infinite value, as
    they are, and drop every other row. *)
Lemma finish_filter sorted : finish sorted = filter complete_row sorted.
Proof.
  unfold finish, dropna. induction sorted as [|r sorted IH]; [done|].
  change (map replace_inf (r :: sorted))
    with (replace_inf r :: map replace_inf sorted).
  rewrite !filter_cons, IH.
  destruct (decide (complete_row r)) as [Hr|Hr].
  - rewrite decide_True by (by apply replace_inf_kept).
    by rewrite replace_inf_complete.
  - rewrite decide_False; [done|]. by rewrite replace_inf_kept.
Qed.

Lemma report_elem claim_id dist_dict full_df rows final r :
  enrich claim_id dist_dict full_df = Some rows ->
  report rows final ->
  r ∈ final ->
  complete_row r /\
  exists t rk, t ∈ full_df /\ rk ∈ rows /\
    rank_row (apply_distance claim_id dist_dict t) = Some rk /\
    r = display rk.
Proof.
  intros Henrich (sorted & [Hperm _] & ->) Hr.
  rewrite finish_filter in Hr. apply list_elem_of_filter in Hr as [Hc Hr].
  split; [done|].
  rewrite <- Hperm in Hr. apply list_elem_of_fmap in Hr as (rk & -> & Hrk).
  destruct (enrich_elem _ _ _ _ _ Henrich Hrk) as (t & Ht & Hrank).
  by exists t, rk.
Qed.

Lemma default_PosInf_finite (o : option float64) :
  is_finite (default PosInf o) = true ->
  exists q, o = Some (Finite q).
Proof. destruct o as [[| | |]|]; simpl; try done. eauto. Qed.

(** The completeness of the report, for any dictionary of distances. *)
Lemma report_complete_dict claim_id dist_dict full_df rows final :
  enrich claim_id dist_dict full_df = Some rows ->
  report rows final ->
  (exists sorted,
     sort_values "Cargo Ship Profit per 1k Dist" (display <$> rows) sorted /\
     final = filter complete_row sorted) /\
  (forall r c, r ∈ final -> c ∈ r -> complete c.2) /\
  (forall r, r ∈ final ->
     exists t q, t ∈ full_df /\
       dist_dict !! target_claim claim_id t = Some (Finite q) /\
       column "Distance" r = Some (Float (Finite q))) /\
  (forall t rk,
     dist_dict !! target_claim claim_id t = None ->
     rank_row (apply_distance claim_id dist_dict t) = Some rk ->
     Distance (base rk) = PosInf /\
     (display rk ∉ final) /\ (replace_inf (display rk) ∉ final)).
Proof.
  intros Henrich Hreport. split_and!.
  - destruct Hreport as (sorted & Hsort & ->). exists sorted.
    split; [done | apply finish_filter].
  - intros r c Hr Hc.
    destruct (report_elem _ _ _ _ _ _ Henrich Hreport Hr) as [Hcr _].
    unfold complete_row in Hcr. rewrite Forall_forall in Hcr. by apply Hcr.
  - intros r Hr.
    destruct (report_elem _ _ _ _ _ _ Henrich Hreport Hr)
      as (Hc & t & rk & Ht & _ & Hrank & ->).
    destruct (display_columns _ _ Hrank) as (ratio & Hd & _ & _ & _ & _ & Hfin).
    destruct (Hfin Hc) as [Hdist _].
    apply default_PosInf_finite in Hdist as [q Hq].
    exists t, q. split_and!; [done | done |].
    rewrite Hd. simpl. by rewrite Hq.
  - intros t rk Hnone Hrank.
    destruct (display_columns _ _ Hrank) as (ratio & Hd & _ & _ & _ & _ & Hfin).
    assert (Distance (apply_distance claim_id dist_dict t) = PosInf) as Hinf.
    { simpl. by rewrite Hnone. }
    assert (~ complete_row (display rk)) as Hnc.
    { intros Hc. destruct (Hfin Hc) as [Hdist _]. by rewrite Hinf in Hdist. }
    apply rank_row_shape in Hrank as Hshape.
    destruct Hshape as (? & ? & ? & ? & -> & _).
    split; [done|].
    destruct Hreport as (sorted & _ & ->). rewrite finish_filter.
    split; intros [Hc _]%list_elem_of_filter.
    + done.
    + by apply Hnc, replace_inf_complete_inv.
Qed.

Lemma target_listed claim_id full_df t :
  t ∈ full_df -> target_claim claim_id t ∈ claim_list full_df.
Proof.
  intros Ht. unfold claim_list. apply unique_spec, elem_of_app.
  unfold target_claim. case_decide; [right | left];
    apply list_elem_of_fmap; by exists t.
Qed.

(** C5: the report is the sorted table without the rows that hold a
    missing or an infinite value, so no value of the report is missing or
    infinite; a trade whose counterparty could not be fetched gets the
    infinite distance and its row is not in the report; every row of the
    report shows a trade whose counterparty was fetched, at the distance
    computed for it. *)
Theorem report_complete X0 Z0 request claim_id full_df rows final :
  enrich claim_id (resolve X0 Z0 request (claim_list full_df)) full_df
    = Some rows ->
  report rows final ->
  (exists sorted,
     sort_values "Cargo Ship Profit per 1k Dist" (display <$> rows) sorted /\
     final = filter complete_row sorted) /\
  (forall r c, r ∈ final -> c ∈ r -> complete c.2) /\
  (forall t,
     t ∈ full_df ->
     request (target_claim claim_id t) = None ->
     exists rk,
       rk ∈ rows /\ deal (base rk) = t /\ Distance (base rk) = PosInf /\
       (display rk ∉ final) /\ (replace_inf (display rk) ∉ final)) /\
  (forall r, r ∈ final ->
     exists t claim, t ∈ full_df /\
       request (target_claim claim_id t) = Some claim /\
       column "Distance" r = Some (Float (dist X0 Z0 claim))).
Proof.
  intros Henrich Hreport.
  destruct (report_complete_dict _ _ _ _ _ Henrich Hreport)
    as (Hsorted & Hcomplete & Hresolved & Hdropped).
  split_and!; [done | done | |].
  - intros t Ht Hreq.
    destruct (enrich_total _ _ _ _ _ Henrich Ht) as (rk & Hrk & Hrank).
    exists rk. split; [done|]. split.
    + apply rank_row_shape in Hrank as (? & ? & ? & ? & -> & _). done.
    + apply (Hdropped t rk); [|done].
      rewrite resolve_lookup, Hreq. by case_decide.
  - intros r Hr. destruct (Hresolved r Hr) as (t & q & Ht & Hq & Hd).
    rewrite resolve_lookup in Hq.
    rewrite decide_True in Hq by (by apply target_listed).
    destruct (request (target_claim claim_id t)) as [claim|] eqn:E; [|done].
    exists t, claim. split_and!; [done | done |].
    rewrite Hd. change (Some (dist X0 Z0 claim) = Some (Finite q)) in Hq.
    by rewrite <- (Some_inj _ _ Hq).
Qed.


Lemma truediv_zero n q :
  Qeq_bool q 0 = true -> is_finite (np_round2 (truediv n (Finite q))) = false.
Proof. unfold truediv. intros ->. by repeat case_match. Qed.

Lemma resolve_value X0 Z0 request claims id x :
  resolve X0 Z0 request claims !! id = Some x ->
  exists s, 0 <= s /\ x = Finite (round2_sqrt_div3 s).
Proof.
  rewrite resolve_lookup. case_decide; [|done].
  destruct (request id) as [claim|]; [|done]. intros [= <-].
  eexists. split; [|reflexivity]. nia.
Qed.

Lemma round2_sqrt_div3_pos s :
  0 <= s -> Qeq_bool (round2_sqrt_div3 s) 0 = false ->
  (0 < round2_sqrt_div3 s)%Q.
Proof.
  intros _ Hne%Qeq_bool_neq.
  pose proof (round2_sqrt_div3_nonneg s) as [?|Heq]%Qle_lteq; [done|].
  by destruct Hne.
Qed.

(** C10: in a row whose distance is 0 the division gives every vehicle a
    ratio that is infinite or undefined, a value and not an error, and the
    row is not in the report; so the distance of every row of the report is
    finite and positive. *)
Theorem report_distance_positive X0 Z0 request claims claim_id full_df rows
    final :
  enrich claim_id (resolve X0 Z0 request claims) full_df = Some rows ->
  report rows final ->
  (forall rk q, rk ∈ rows -> Distance (base rk) = Finite q -> (q == 0)%Q ->
     Forall (fun v => is_finite (Profit_per_1k_Dist v.2) = false)
            (vehicles rk) /\
     display rk ∉ final) /\
  (forall r, r ∈ final ->
     exists q, column "Distance" r = Some (Float (Finite q)) /\ (0 < q)%Q).
Proof.
  intros Henrich Hreport. split.
  - intros rk q Hrk Hq Hzero. apply Qeq_bool_iff in Hzero.
    destruct (enrich_elem _ _ _ _ _ Henrich Hrk) as (t & _ & Hrank).
    destruct (display_columns _ _ Hrank) as (x & _ & _ & [n ->] & _ & _ & Hfin).
    apply rank_row_shape in Hrank as (c1 & c2 & c3 & c4 & -> & Hc).
    cbn [base] in Hq. rewrite Hq in Hc, Hfin. split.
    + simpl. rewrite !Forall_cons in Hc.
      destruct Hc as (H1 & H2 & H3 & H4 & _).
      repeat constructor; simpl;
        rewrite ?H1, ?H2, ?H3, ?H4; by apply truediv_zero.
    + intros Hin.
      destruct (report_elem _ _ _ _ _ _ Henrich Hreport Hin) as [Hcr _].
      destruct (Hfin Hcr) as [_ Hx]. by rewrite truediv_zero in Hx.
  - intros r Hr.
    destruct (report_elem _ _ _ _ _ _ Henrich Hreport Hr)
      as (Hc & t & rk & _ & _ & Hrank & ->).
    destruct (display_columns _ _ Hrank) as (x & Hd & _ & [n ->] & _ & _ & Hfin).
    destruct (Hfin Hc) as [Hdist Hx]. rewrite Hd.
    apply default_PosInf_finite in Hdist as [q Hq].
    assert (Distance (apply_distance claim_id
                        (resolve X0 Z0 request claims) t) = Finite q) as HD.
    { simpl. by rewrite Hq. }
    rewrite HD in Hx |- *. exists q. split; [done|].
    apply resolve_value in Hq as (s & Hs & [= ->]).
    apply round2_sqrt_div3_pos; [done|].
    destruct (Qeq_bool (round2_sqrt_div3 s) 0) eqn:E; [|done].
    by rewrite truediv_zero in Hx.
Qed.

#[local] Instance precedes_trans by_col :
  Transitive (fun r1 r2 : row =>
                precedes (float_of by_col r1) (float_of by_col r2)).
Proof.
  intros r1 r2 r3. unfold precedes.
  destruct (float_of by_col r1) as [a| | |], (float_of by_col r2) as [b| | |],
           (float_of by_col r3) as [c| | |]; simpl;
    intros [?|[? ?]] [?|[? ?]]; try done; try (right; done); try (by left).
  right. split; [done|]. eapply Qle_trans; eassumption.
Qed.

Lemma StronglySorted_filter_impl {A} (R R' : relation A) (P : A -> Prop)
    `{forall x, Decision (P x)} l :
  (forall x y, P x -> P y -> x ∈ l -> y ∈ l -> R x y -> R' x y) ->
  StronglySorted R l -> StronglySorted R' (filter P l).
Proof.
  intros Himpl Hs. induction Hs as [|x l Hs IH Hx].
  - constructor.
  - rewrite filter_cons. 
    assert (StronglySorted R' (filter P l)) as IH'.
    { apply IH. intros a b ? ? ? ?. apply Himpl; by try right. }
    case_decide; [|done]. constructor; [done|].
    rewrite Forall_forall in Hx |- *.
    intros y [Hy Hin]%list_elem_of_filter.
    apply Himpl; try done; [left | by right | by apply Hx].
Qed.

(** C3, as amended: the report holds the complete rows of the table, each
    as often as the table does, in descending order of the Cargo Ship
    ratio, which is a finite number in every row of the report.  How rows
    with equal ratios follow each other is left open. *)
Theorem report_descending claim_id dist_dict full_df rows final :
  enrich claim_id dist_dict full_df = Some rows ->
  report rows final ->
  final ≡ₚ filter complete_row (display <$> rows) /\
  StronglySorted
    (fun r1 r2 =>
       exists x1 x2,
         column "Cargo Ship Profit per 1k Dist" r1 = Some (Float (Finite x1)) /\
         column "Cargo Ship Profit per 1k Dist" r2 = Some (Float (Finite x2)) /\
         (x2 <= x1)%Q) final.
Proof.
  intros Henrich Hreport.
  destruct (Hreport) as (sorted & [Hperm Hsorted] & ->).
  apply Sorted_StronglySorted in Hsorted;
    [|intros x y z; apply precedes_trans].
  rewrite finish_filter. split.
  { change (map display rows) with (display <$> rows) in Hperm.
    by rewrite Hperm. }
  eapply StronglySorted_filter_impl; [|exact Hsorted].
  intros r1 r2 Hc1 Hc2 Hr1 Hr2 Hprec.
  assert (forall r, complete_row r -> r ∈ sorted ->
            exists x, column "Cargo Ship Profit per 1k Dist" r
                      = Some (Float (Finite x))) as Hcol.
  { intros r Hc Hr. rewrite <- Hperm in Hr.
    apply list_elem_of_fmap in Hr as (rk & -> & Hrk).
    destruct (enrich_elem _ _ _ _ _ Henrich Hrk) as (t & _ & Hrank).
    destruct (display_columns _ _ Hrank) as (x & _ & Hx & _ & _ & _ & Hfin).
    destruct (Hfin Hc) as [_ Hxf]. rewrite Hx.
    destruct x; try done. eauto. }
  destruct (Hcol r1 Hc1 Hr1) as [x1 Hx1], (Hcol r2 Hc2 Hr2) as [x2 Hx2].
  exists x1, x2. split_and!; [done..|].
  unfold precedes, float_of in Hprec. rewrite Hx1, Hx2 in Hprec.
  by destruct Hprec as [?|[_ ?]].
Qed.

(* ===================================================================== *)
(** ** The sample run                                                     *)
(* ===================================================================== *)

Lemma sample_enrich :
  enrich Sample.home Sample.dist_dict Sample.full_df = Some Sample.rows.
Proof. by vm_compute. Qed.

Lemma sample_enrich_resolved :
  enrich Sample.home
    (resolve 0 0 Sample.claims (claim_list Sample.full_df)) Sample.full_df
  = Some Sample.rows.
Proof. exact sample_enrich. Qed.

Ltac descending :=
  repeat first
    [ apply Sorted_nil
    | apply HdRel_nil
    | apply Sorted_cons
    | apply HdRel_cons; vm_compute; right; split; [reflexivity | discriminate] ].

Lemma sample_sorted :
  sort_values "Cargo Ship Profit per 1k Dist" (map display Sample.rows)
    Sample.sorted.
Proof.
  split.
  - vm_compute. apply perm_skip, perm_swap.
  - let v := eval vm_compute in Sample.sorted in change Sample.sorted with v.
    descending.
Qed.

Lemma sample_sorted' :
  sort_values "Cargo Ship Profit per 1k Dist" Sample.table Sample.sorted'.
Proof.
  split.
  - vm_compute. etrans; [apply perm_skip, perm_swap | apply perm_swap].
  - let v := eval vm_compute in Sample.sorted' in change Sample.sorted' with v.
    descending.
Qed.

Lemma sample_report : report Sample.rows Sample.final.
Proof. exists Sample.sorted. split; [apply sample_sorted | done]. Qed.

(** The two scenarios of the specification for the matcher: a sale at home
    at 10 against a purchase elsewhere at 15 is one trade of 50 units at a
    unit profit of 5; a sale at 20 against a purchase at 15 is none. *)
Example simple_match :
  process_item "H" Sample.plank
    (Some {| buyOrders := [Sample.order 7 15 50 "B" "Bee" "North"];
             sellOrders := [Sample.order 7 10 100 "H" "Home" "North"] |})
  = [ profitability
        {| sell := attach Sample.plank "item"
                     (Sample.order 7 10 100 "H" "Home" "North");
           buy := attach Sample.plank "item"
                    (Sample.order 7 15 50 "B" "Bee" "North") |} ] /\
  (Trade_Quantity <$> process_item "H" Sample.plank
     (Some {| buyOrders := [Sample.order 7 15 50 "B" "Bee" "North"];
              sellOrders := [Sample.order 7 10 100 "H" "Home" "North"] |}))
  = [50] /\
  (Unit_Profit <$> process_item "H" Sample.plank
     (Some {| buyOrders := [Sample.order 7 15 50 "B" "Bee" "North"];
              sellOrders := [Sample.order 7 10 100 "H" "Home" "North"] |}))
  = [5].
Proof. split_and!; reflexivity. Qed.

Example unprofitable_pair :
  process_item "H" Sample.plank
    (Some {| buyOrders := [Sample.order 7 15 50 "B" "Bee" "North"];
             sellOrders := [Sample.order 7 20 100 "H" "Home" "North"] |})
  = [].
Proof. reflexivity. Qed.

(** The report of the sample run: the planks and the bricks sold to B, at
    16.67 from home; the planks sold to C, whose query failed, are gone. *)
Example sample_final :
  (fun r => (column "Item" r, column "Buying Claim" r, column "Distance" r,
             column "Cargo Ship Profit per 1k Dist" r)) <$> Sample.final
  = [ (Some (Str "Plank"), Some (Str "Bee"),
       Some (Float (Finite (to_float64 (1667 # 100)))),
       Some (Float (Finite (to_float64 (2999400 # 100)))));
      (Some (Str "Brick"), Some (Str "Bee"),
       Some (Float (Finite (to_float64 (1667 # 100)))),
       Some (Float (Finite (to_float64 (2999400 # 100))))) ].
Proof. by vm_compute. Qed.

(* ===================================================================== *)
(** ** The run with eighteen trades                                       *)
(* ===================================================================== *)

Lemma fleet_enrich :
  enrich Sample.home Fleet.dist_dict Fleet.full_df = Some Fleet.rows.
Proof. by vm_compute. Qed.

Lemma fleet_quicksort :
  sort_values_quicksort "Cargo Ship Profit per 1k Dist"
    (display <$> Fleet.rows) = Some Fleet.sorted.
Proof. by vm_compute. Qed.

(** What the quicksort returns on the eighteen rows is a result of the sort
    as [sort_values] describes it. *)
Lemma fleet_sorted :
  sort_values "Cargo Ship Profit per 1k Dist" (map display Fleet.rows)
    Fleet.sorted.
Proof.
  split.
  - apply (bool_decide_unpack _). by vm_compute.
  - let v := eval vm_compute in Fleet.sorted in change Fleet.sorted with v.
    descending.
Qed.

Lemma fleet_report : report Fleet.rows Fleet.final.
Proof. exists Fleet.sorted. split; [apply fleet_sorted | done]. Qed.

(** C3, as stated, fails: in the run with eighteen trades the table lists
    the goods in the order of the item list, and of the sixteen goods with
    the ratio 1000 the quicksort of line 300 leaves the first (Brick) in
    front and returns the other fifteen in reverse.  The rope and the cloth
    have the same Cargo Ship ratio, the rope stands before the cloth in the
    table, and the sort returns the cloth before the rope. *)
Lemma quicksort_swaps_ties :
  enrich Sample.home Fleet.dist_dict Fleet.full_df = Some Fleet.rows /\
  sort_values_quicksort "Cargo Ship Profit per 1k Dist"
    (display <$> Fleet.rows) = Some Fleet.sorted /\
  strings_of "Item" Fleet.table = Fleet.goods.*1 /\
  strings_of "Item" Fleet.sorted
  = [ "Plank"; "Brick"; "Pitch"; "Fiber"; "Clay"; "Hide"; "Brass"; "Thread";
      "Resin"; "Salt"; "Flour"; "Glass"; "Leather"; "Ingot"; "Nail";
      "Cloth"; "Rope"; "Sap" ] /\
  float_of "Cargo Ship Profit per 1k Dist" Fleet.rope
  = float_of "Cargo Ship Profit per 1k Dist" Fleet.cloth /\
  before Fleet.rope Fleet.cloth Fleet.table /\
  before Fleet.cloth Fleet.rope Fleet.sorted /\
  ~ keeps_ties "Cargo Ship Profit per 1k Dist" Fleet.table Fleet.sorted.
Proof.
  assert (before Fleet.rope Fleet.cloth Fleet.table) as Htable.
  { exists 2%nat, 3%nat. split_and!; [lia | by vm_compute | by vm_compute]. }
  assert (Fleet.sorted !! 15%nat = Some Fleet.cloth) as Hcloth
    by (by vm_compute).
  assert (Fleet.sorted !! 16%nat = Some Fleet.rope) as Hrope
    by (by vm_compute).
  assert (float_of "Cargo Ship Profit per 1k Dist" Fleet.rope
          = float_of "Cargo Ship Profit per 1k Dist" Fleet.cloth) as Htie
    by (by vm_compute).
  split; [exact fleet_enrich|]. split; [exact fleet_quicksort|].
  split; [by vm_compute|]. split; [by vm_compute|].
  split; [exact Htie|]. split; [exact Htable|]. split.
  { exists 15%nat, 16%nat. split_and!; [lia | done | done]. }
  intros Hkeeps.
  destruct (Hkeeps _ _ Htie Htable) as (i & j & Hij & Hi & Hj).
  assert (NoDup Fleet.sorted) as Hnd
    by (apply (bool_decide_unpack _); by vm_compute).
  pose proof (NoDup_lookup _ _ _ _ Hnd Hi Hrope).
  pose proof (NoDup_lookup _ _ _ _ Hnd Hj Hcloth). lia.
Qed.

(* ===================================================================== *)
(** ** Summary sheet                                                      *)
(* ===================================================================== *)

Lemma strings_of_elem name (table : list row) n :
  n ∈ strings_of name table <->
  exists r, r ∈ table /\ column name r = Some (Str n).
Proof.
  unfold strings_of. rewrite list_elem_of_bind. split.
  - intros (r & Hn & Hr). exists r. split; [done|].
    destruct (column name r) as [[s| |]|]; try by apply elem_of_nil in Hn.
    apply list_elem_of_singleton in Hn. by subst.
  - intros (r & Hr & Hc). exists r. rewrite Hc. split; [left | done].
Qed.

(** C9, as amended: the number written to the fourth cell is the number of
    distinct claim names in the Buying Claim and Selling Claim columns of
    the report; each row of the report shows a trade of [full_df] under the
    names of its two claims, one of which is the home claim, so the name of
    the home claim is counted with those of its counterparties. *)
Theorem claim_N_counts_names claim_id request item_list dist_dict rows final :
  enrich claim_id dist_dict (collect claim_id request item_list) = Some rows ->
  report rows final ->
  (exists names,
     NoDup names /\ claim_N final = length names /\
     forall n, n ∈ names <->
       exists r, r ∈ final /\
         (column "Buying Claim" r = Some (Str n) \/
          column "Selling Claim" r = Some (Str n))) /\
  (forall r, r ∈ final ->
     exists t, t ∈ collect claim_id request item_list /\
       column "Buying Claim" r = Some (Str (Buying_Claim (pair t))) /\
       column "Selling Claim" r = Some (Str (Selling_Claim (pair t))) /\
       (buyClaimEntityId (pair t) = claim_id \/
        sellClaimEntityId (pair t) = claim_id)).
Proof.
  intros Henrich Hreport. split.
  - eexists. destruct (unique_spec (strings_of "Buying Claim" final
                       ++ strings_of "Selling Claim" final)) as [Hnd Hel].
    split_and!; [exact Hnd | reflexivity |].
    intros n. rewrite Hel, elem_of_app, !strings_of_elem. split.
    + intros [(r & ? & ?)|(r & ? & ?)]; exists r; tauto.
    + intros (r & ? & [?|?]); [left | right]; eauto.
  - intros r Hr.
    destruct (report_elem _ _ _ _ _ _ Henrich Hreport Hr)
      as (_ & t & rk & Ht & _ & Hrank & ->).
    destruct (display_columns _ _ Hrank) as (_ & _ & _ & _ & Hb & Hs & _).
    exists t. split_and!; [done | done | done |].
    apply collect_elem in Ht as (item & ts & m & _ & _ & _ & Hm).
    apply matcher_elem in Hm as (_ & _ & [Hsell|Hbuy] & _);
      [by right | by left].
Qed.

(** C9, as stated, fails: the report of the sample run shows trades with
    one counterparty, B, and the cell holds 2, the names of B and of the
    home claim. *)
Lemma claim_N_counts_home :
  report Sample.rows Sample.final /\
  Sample.final <> [] /\
  length (counterparties Sample.home Sample.final_rows) = 1%nat /\
  claim_N Sample.final = 2%nat.
Proof.
  split; [apply sample_report|]. split_and!; by vm_compute.
Qed.

(* ===================================================================== *)
(** ** The properties on the sample run                                   *)
(* ===================================================================== *)

Lemma sample_prices ts id m :
  Sample.market ts id = Some m ->
  Forall price_ok (buyOrders m ++ sellOrders m).
Proof.
  unfold Sample.market. intros H.
  repeat case_decide; simplify_eq; simpl;
    repeat (apply Forall_cons; split); try apply Forall_nil;
    unfold price_ok; simpl; lia.
Qed.

Lemma sample_first_row : deal Sample.plank_B ∈ Sample.full_df.
Proof. vm_compute. left. Qed.

(** The timber on a Raft: the capacity allows 11 of the 100 on offer. *)
Lemma vehicle_row_capped_witness :
  ("Raft", Sample.raft) ∈ vehicle_capacity /\
  0 < itemVolume (sell (pair (deal Freight.timber_B))) /\
  - 2 ^ 53 <= Trade_Quantity (deal Freight.timber_B) /\
  in_int64
    (Z.min (Trade_Quantity (deal Freight.timber_B))
       (effective_capacity Sample.raft player_capacity
          (itemTypeStr (sell (pair (deal Freight.timber_B))))
        / itemVolume (sell (pair (deal Freight.timber_B))))
     * Unit_Profit (deal Freight.timber_B)) /\
  Trade_Quantity (deal Freight.timber_B) = 100 /\
  effective_capacity Sample.raft player_capacity
    (itemTypeStr (sell (pair (deal Freight.timber_B))))
  / itemVolume (sell (pair (deal Freight.timber_B))) = 11 /\
  exists cols,
    vehicle_row Sample.raft Freight.timber_B = Some cols /\
    Quantity cols
      = Z.min (Trade_Quantity (deal Freight.timber_B))
          (effective_capacity Sample.raft player_capacity
             (itemTypeStr (sell (pair (deal Freight.timber_B))))
           / itemVolume (sell (pair (deal Freight.timber_B)))) /\
    Profit cols = Quantity cols * Unit_Profit (deal Freight.timber_B) /\
    Quantity cols <= Trade_Quantity (deal Freight.timber_B) /\
    Quantity cols
      <= effective_capacity Sample.raft player_capacity
           (itemTypeStr (sell (pair (deal Freight.timber_B))))
         / itemVolume (sell (pair (deal Freight.timber_B))).
Proof.
  assert (- 2 ^ 53 <= Trade_Quantity (deal Freight.timber_B)) as Htq
    by (by vm_compute).
  assert (in_int64
            (Z.min (Trade_Quantity (deal Freight.timber_B))
               (effective_capacity Sample.raft player_capacity
                  (itemTypeStr (sell (pair (deal Freight.timber_B))))
                / itemVolume (sell (pair (deal Freight.timber_B))))
             * Unit_Profit (deal Freight.timber_B))) as Hfits.
  { vm_compute. split; [discriminate | reflexivity]. }
  split; [left|]. split; [reflexivity|]. split; [exact Htq|].
  split; [exact Hfits|]. split; [reflexivity|]. split; [reflexivity|].
  apply (vehicle_row_capped "Raft" Sample.raft Freight.timber_B).
  - left.
  - reflexivity.
  - exact Htq.
  - exact Hfits.
Defined.

Lemma collect_touches_home_witness :
  deal Sample.plank_B ∈ collect Sample.home Sample.market Sample.item_list /\
  (sellClaimEntityId (pair (deal Sample.plank_B)) = Sample.home \/
   buyClaimEntityId (pair (deal Sample.plank_B)) = Sample.home).
Proof.
  split; [exact sample_first_row|].
  exact (collect_touches_home Sample.home Sample.market Sample.item_list
           (deal Sample.plank_B) sample_first_row).
Defined.

Lemma collect_profit_positive_witness :
  (forall ts id m, Sample.market ts id = Some m ->
     Forall price_ok (buyOrders m ++ sellOrders m)) /\
  deal Sample.plank_B ∈ collect Sample.home Sample.market Sample.item_list /\
  Unit_Profit (deal Sample.plank_B)
    = Buying_Price (pair (deal Sample.plank_B))
      - Selling_Price (pair (deal Sample.plank_B)) /\
  0 < Unit_Profit (deal Sample.plank_B) /\
  Selling_Price (pair (deal Sample.plank_B))
    < Buying_Price (pair (deal Sample.plank_B)).
Proof.
  split; [exact sample_prices|]. split; [exact sample_first_row|].
  exact (collect_profit_positive Sample.home Sample.market Sample.item_list
           (deal Sample.plank_B) sample_prices sample_first_row).
Defined.

Lemma resolve_distance_witness :
  "B" ∈ claim_list Sample.full_df /\
  Sample.claims "B" = Some Sample.bee /\
  Z.abs (0 - default 0 (locationX Sample.bee)) <= 2 ^ 25 /\
  Z.abs (0 - default 0 (locationZ Sample.bee)) <= 2 ^ 25 /\
  exists q k,
    Sample.dist_dict !! "B" = Some (Finite q) /\
    (0 <= q)%Q /\ 0 <= k /\ q = to_float64 (k # 100) /\
    (Rabs (Q2R (k # 100) - sqrt (IZR ((0 - 30) ^ 2 + (0 - 40) ^ 2)%Z) / 3)
     <= 1 / 200 + 1 / 100000000)%R /\
    (Rabs (Q2R q - sqrt (IZR ((0 - 30) ^ 2 + (0 - 40) ^ 2)%Z) / 3)
     <= 1 / 200 + 1 / 100000000)%R.
Proof.
  assert ("B" ∈ claim_list Sample.full_df) as Hin by (vm_compute; left).
  assert (Z.abs (0 - default 0 (locationX Sample.bee)) <= 2 ^ 25) as HX
    by (by vm_compute).
  assert (Z.abs (0 - default 0 (locationZ Sample.bee)) <= 2 ^ 25) as HZ
    by (by vm_compute).
  split; [exact Hin|]. split; [reflexivity|].
  split; [exact HX|]. split; [exact HZ|].
  exact (resolve_distance 0 0 Sample.claims (claim_list Sample.full_df)
           "B" Sample.bee Hin eq_refl HX HZ).
Defined.

Lemma report_complete_witness :
  enrich Sample.home
    (resolve 0 0 Sample.claims (claim_list Sample.full_df)) Sample.full_df
  = Some Sample.rows /\
  report Sample.rows Sample.final /\
  (forall r c, r ∈ Sample.final -> c ∈ r -> complete c.2) /\
  (forall r, r ∈ Sample.final ->
     exists t claim, t ∈ Sample.full_df /\
       Sample.claims (target_claim Sample.home t) = Some claim /\
       column "Distance" r = Some (Float (dist 0 0 claim))).
Proof.
  split; [exact sample_enrich_resolved|]. split; [exact sample_report|].
  destruct (report_complete 0 0 Sample.claims Sample.home Sample.full_df
              Sample.rows Sample.final sample_enrich_resolved sample_report)
    as (_ & Hcomplete & _ & Hresolved).
  split; [exact Hcomplete | exact Hresolved].
Defined.

Lemma report_distance_positive_witness :
  enrich Sample.home
    (resolve 0 0 Sample.claims (claim_list Sample.full_df)) Sample.full_df
  = Some Sample.rows /\
  report Sample.rows Sample.final /\
  (forall r, r ∈ Sample.final ->
     exists q, column "Distance" r = Some (Float (Finite q)) /\ (0 < q)%Q).
Proof.
  split; [exact sample_enrich_resolved|]. split; [exact sample_report|].
  exact (proj2 (report_distance_positive 0 0 Sample.claims
                  (claim_list Sample.full_df) Sample.home Sample.full_df
                  Sample.rows Sample.final
                  sample_enrich_resolved sample_report)).
Defined.

(** The run with eighteen trades: the ratios of its report are 1800, then
    1000 sixteen times, then 400. *)
Lemma report_descending_witness :
  enrich Sample.home Fleet.dist_dict Fleet.full_df = Some Fleet.rows /\
  report Fleet.rows Fleet.final /\
  float_of "Cargo Ship Profit per 1k Dist" <$> Fleet.final
  = Finite (to_float64 1800)
      :: replicate 16 (Finite (to_float64 1000)) ++ [Finite (to_float64 400)] /\
  Fleet.final ≡ₚ filter complete_row (display <$> Fleet.rows) /\
  StronglySorted
    (fun r1 r2 =>
       exists x1 x2,
         column "Cargo Ship Profit per 1k Dist" r1 = Some (Float (Finite x1)) /\
         column "Cargo Ship Profit per 1k Dist" r2 = Some (Float (Finite x2)) /\
         (x2 <= x1)%Q) Fleet.final.
Proof.
  split; [exact fleet_enrich|]. split; [exact fleet_report|].
  split; [by vm_compute|].
  exact (report_descending Sample.home Fleet.dist_dict Fleet.full_df
           Fleet.rows Fleet.final fleet_enrich fleet_report).
Defined.

Lemma claim_N_counts_names_witness :
  enrich Sample.home Sample.dist_dict
    (collect Sample.home Sample.market Sample.item_list) = Some Sample.rows /\
  report Sample.rows Sample.final /\
  exists names,
    NoDup names /\ claim_N Sample.final = length names /\
    forall n, n ∈ names <->
      exists r, r ∈ Sample.final /\
        (column "Buying Claim" r = Some (Str n) \/
         column "Selling Claim" r = Some (Str n)).
Proof.
  split; [exact sample_enrich|]. split; [exact sample_report|].
  exact (proj1 (claim_N_counts_names Sample.home Sample.market
                  Sample.item_list Sample.dist_dict Sample.rows Sample.final
                  sample_enrich sample_report)).
Defined.

(* ===================================================================== *)
(** ** Further properties of the Normalizer and the Matcher               *)
(* ===================================================================== *)

Lemma int64_add_r a b : int64 (a + int64 b) = int64 (a + b).
Proof. rewrite (Z.add_comm a), int64_add_l. f_equal. lia. Qed.

Lemma group_add_sum k q gs :
  int64 (sumZ (group_add k q gs).*2) = int64 (sumZ gs.*2 + q).
Proof.
  induction gs as [|[k' q'] gs IH]; cbn [group_add].
  - simpl. f_equal. lia.
  - case_decide; rewrite !fmap_cons; cbn [snd sumZ foldr].
    + rewrite int64_add_l. f_equal. lia.
    + fold (sumZ (group_add k q gs).*2). fold (sumZ gs.*2).
      rewrite <- int64_add_r, IH, int64_add_r. f_equal. lia.
Qed.

Lemma group_add_length k q gs : (length (group_add k q gs) <= S (length gs))%nat.
Proof.
  induction gs as [|[k' q'] gs IH]; cbn [group_add]; [done|].
  case_decide; simpl; lia.
Qed.

Lemma groups_of_sum rows :
  int64 (sumZ (groups_of rows).*2) = int64 (sumZ (quantity <$> rows)).
Proof.
  induction rows as [|r rows IH] using rev_ind; [done|].
  rewrite groups_of_snoc, group_add_sum, fmap_app. unfold sumZ at 2.
  rewrite foldr_app. simpl.
  rewrite <- int64_add_l. fold (sumZ (groups_of rows).*2). rewrite IH.
  rewrite int64_add_l. f_equal.
  generalize (quantity <$> rows). intros l. unfold sumZ.
  induction l as [|x l IHl]; simpl; lia.
Qed.

Lemma groups_of_length rows : (length (groups_of rows) <= length rows)%nat.
Proof.
  induction rows as [|r rows IH] using rev_ind; [done|].
  rewrite groups_of_snoc, length_app. simpl.
  pose proof (group_add_length (key_of r) (quantity r) (groups_of rows)). lia.
Qed.

(** X1: normalization conserves the quantity on offer: in 64-bit
    arithmetic the quantities of a normalized pool add up to those of the
    raw orders, and the pool has no more records than there were orders. *)
Theorem normalize_conserves item ts orders :
  int64 (sumZ (quantity <$> normalize item ts orders))
  = int64 (sumZ (raw_quantity <$> orders)) /\
  (length (normalize item ts orders) <= length orders)%nat.
Proof.
  unfold normalize, groupby_sum. split.
  - replace (quantity <$> map row_of (groups_of (map (attach item ts) orders)))
      with ((groups_of (map (attach item ts) orders)).*2).
    + rewrite groups_of_sum. f_equal. f_equal.
      rewrite <- list_fmap_compose. by apply list_fmap_ext.
    + rewrite <- list_fmap_compose. apply list_fmap_ext.
      intros _ [k q] _. unfold compose. by rewrite quantity_row_of.
  - rewrite length_map.
    etrans; [apply groups_of_length|]. by rewrite length_map.
Qed.

Lemma group_add_fresh k q gs :
  k ∉ gs.*1 -> group_add k q gs = gs ++ [(k, q)].
Proof.
  induction gs as [|[k' q'] gs IH]; cbn [group_add]; [done|].
  rewrite fmap_cons, not_elem_of_cons. intros [Hne Hnin].
  rewrite decide_False by done. by rewrite IH.
Qed.

Lemma row_of_key_of r : row_of (key_of r, quantity r) = r.
Proof. by destruct r. Qed.

Lemma groups_of_rows gs :
  NoDup gs.*1 -> groups_of (row_of <$> gs) = gs.
Proof.
  induction gs as [|[k q] gs IH] using rev_ind; [done|].
  rewrite fmap_app, NoDup_app. intros (Hnd & Hfresh & _).
  rewrite fmap_app. change (row_of <$> [(k, q)]) with [row_of (k, q)].
  rewrite groups_of_snoc, IH by done.
  rewrite key_of_row_of, quantity_row_of.
  apply group_add_fresh. intros Hin. apply (Hfresh k Hin). left.
Qed.

(** X2: the grouping is idempotent: grouping a normalized pool again gives
    the pool back, record for record. *)
Theorem normalize_idempotent item ts orders :
  groupby_sum (normalize item ts orders) = normalize item ts orders.
Proof.
  unfold normalize.
  generalize (map (attach item ts) orders). intros rows.
  unfold groupby_sum. f_equal.
  exact (groups_of_rows _ (groups_of_NoDup rows)).
Qed.

Lemma process_item_skipped claim_id request item :
  item_type_str (item_type item) = None \/
  (exists ts, item_type_str (item_type item) = Some ts /\
     (request ts (item_id item) = None \/
      exists m, request ts (item_id item) = Some m /\
                (buyOrders m = [] \/ sellOrders m = []))) ->
  process_item claim_id item
    (type_str ← item_type_str (item_type item);
     request type_str (item_id item)) = [].
Proof.
  unfold process_item.
  intros [->|(ts & -> & [Hreq|(m & Hreq & Hempty)])]; simpl.
  - done.
  - by rewrite Hreq.
  - rewrite Hreq. case_decide as Hguard; [done|].
    exfalso. apply Hguard. destruct Hempty as [-> | ->]; [by right | by left].
Qed.

(** X3: an item of an unknown type code, an item whose order-book query
    fails and an item without buy orders or without sell orders add
    nothing to [full_df]: the table is that of the item list without
    them. *)
Theorem collect_skips claim_id request before_it item after_it :
  item_type_str (item_type item) = None \/
  (exists ts, item_type_str (item_type item) = Some ts /\
     (request ts (item_id item) = None \/
      exists m, request ts (item_id item) = Some m /\
                (buyOrders m = [] \/ sellOrders m = []))) ->
  collect claim_id request (before_it ++ item :: after_it)
  = collect claim_id request (before_it ++ after_it).
Proof.
  intros Hskip. unfold collect. rewrite !bind_app, bind_cons.
  by rewrite (process_item_skipped claim_id request item Hskip).
Qed.

Lemma collect_skips_witness :
  (item_type_str (item_type Sample.brick) = None \/
   (exists ts, item_type_str (item_type Sample.brick) = Some ts /\
      (SelfTrade.market ts (item_id Sample.brick) = None \/
       exists m, SelfTrade.market ts (item_id Sample.brick) = Some m /\
                 (buyOrders m = [] \/ sellOrders m = [])))) /\
  collect Sample.home SelfTrade.market ([Sample.plank] ++ Sample.brick :: [])
  = collect Sample.home SelfTrade.market ([Sample.plank] ++ []).
Proof.
  assert (item_type_str (item_type Sample.brick) = None \/
   (exists ts, item_type_str (item_type Sample.brick) = Some ts /\
      (SelfTrade.market ts (item_id Sample.brick) = None \/
       exists m, SelfTrade.market ts (item_id Sample.brick) = Some m /\
                 (buyOrders m = [] \/ sellOrders m = [])))) as Hskip.
  { right. exists "item". split; [reflexivity|]. left. reflexivity. }
  split; [exact Hskip|].
  exact (collect_skips Sample.home SelfTrade.market [Sample.plank]
           Sample.brick [] Hskip).
Defined.

Lemma collect_intro claim_id request item_list item ts m t :
  item ∈ item_list ->
  item_type_str (item_type item) = Some ts ->
  request ts (item_id item) = Some m ->
  t ∈ matcher claim_id (normalize item ts (sellOrders m))
                       (normalize item ts (buyOrders m)) ->
  t ∈ collect claim_id request item_list.
Proof.
  intros Hitem Hts Hreq Ht. unfold collect. apply list_elem_of_bind.
  exists item. split; [|done]. unfold process_item. rewrite Hts. simpl.
  rewrite Hreq. case_decide as Hguard; [|done].
  apply matcher_elem in Ht as (_ & (Hs & Hb & _)%merge_elem & _).
  apply normalize_elem in Hs as (? & Hs & _).
  apply normalize_elem in Hb as (? & Hb & _).
  destruct Hguard as [H0%nil_length_inv|H0%nil_length_inv];
    rewrite H0 in *; by apply elem_of_nil in Hs || apply elem_of_nil in Hb.
Qed.

(** X4: the matcher loses nothing: a sell record and a buy record of the
    pools of a fetched item that agree on item id and type code, of which
    one is at the home claim, and whose buying price exceeds the selling
    price, make a row of [full_df]. *)
Theorem collect_complete claim_id request item_list item ts m s b :
  item ∈ item_list ->
  item_type_str (item_type item) = Some ts ->
  request ts (item_id item) = Some m ->
  Forall price_ok (buyOrders m ++ sellOrders m) ->
  s ∈ normalize item ts (sellOrders m) ->
  b ∈ normalize item ts (buyOrders m) ->
  itemId s = itemId b -> itemType s = itemType b ->
  claimEntityId s = claim_id \/ claimEntityId b = claim_id ->
  priceThreshold s < priceThreshold b ->
  profitability {| sell := s; buy := b |}
    ∈ collect claim_id request item_list.
Proof.
  intros Hitem Hts Hreq Hok Hs Hb Hid Htype Hhome Hprice.
  apply (collect_intro _ _ _ item ts m); try done.
  apply matcher_elem. split_and!; [done | | done |].
  - apply merge_elem. simpl. split_and!; [done..|].
    destruct (normalize_item_columns _ _ _ _ Hs) as (Hns & Hls & Hvs).
    destruct (normalize_item_columns _ _ _ _ Hb) as (Hnb & Hlb & Hvb).
    unfold join_key. congruence.
  - apply Forall_app in Hok as [Hbuy Hsell].
    pose proof (normalize_price _ _ _ _ Hsell Hs).
    pose proof (normalize_price _ _ _ _ Hbuy Hb).
    simpl. unfold Buying_Price, Selling_Price. simpl.
    rewrite int64_id; [lia | unfold in_int64; lia].
Qed.

Lemma collect_complete_witness :
  Sample.plank ∈ Sample.item_list /\
  item_type_str (item_type Sample.plank) = Some "item" /\
  Sample.market "item" (item_id Sample.plank) = Some Sample.plank_market /\
  Forall price_ok (buyOrders Sample.plank_market
                   ++ sellOrders Sample.plank_market) /\
  Pools.on_sale
    ∈ normalize Sample.plank "item" (sellOrders Sample.plank_market) /\
  Pools.wanted
    ∈ normalize Sample.plank "item" (buyOrders Sample.plank_market) /\
  itemId Pools.on_sale = itemId Pools.wanted /\
  itemType Pools.on_sale = itemType Pools.wanted /\
  (claimEntityId Pools.on_sale = Sample.home \/
   claimEntityId Pools.wanted = Sample.home) /\
  priceThreshold Pools.on_sale < priceThreshold Pools.wanted /\
  profitability {| sell := Pools.on_sale; buy := Pools.wanted |}
    ∈ collect Sample.home Sample.market Sample.item_list.
Proof.
  assert (Sample.plank ∈ Sample.item_list) as H1 by left.
  assert (Forall price_ok (buyOrders Sample.plank_market
                           ++ sellOrders Sample.plank_market)) as H4.
  { repeat (apply Forall_cons; split); try apply Forall_nil;
      unfold price_ok; simpl; lia. }
  assert (Pools.on_sale
            ∈ normalize Sample.plank "item" (sellOrders Sample.plank_market))
    as H5 by (vm_compute; left).
  assert (Pools.wanted
            ∈ normalize Sample.plank "item" (buyOrders Sample.plank_market))
    as H6 by (vm_compute; left).
  assert (claimEntityId Pools.on_sale = Sample.home \/
          claimEntityId Pools.wanted = Sample.home) as H9 by (by left).
  assert (priceThreshold Pools.on_sale < priceThreshold Pools.wanted)
    as H10 by reflexivity.
  split_and!; try done.
  exact (collect_complete Sample.home Sample.market Sample.item_list
           Sample.plank "item" Sample.plank_market
           Pools.on_sale Pools.wanted
           H1 eq_refl eq_refl H4 H5 H6 eq_refl eq_refl H9 H10).
Defined.

Lemma item_type_str_cases t ts :
  item_type_str t = Some ts ->
  (t = 0 /\ capitalize ts = "Item") \/ (t = 1 /\ capitalize ts = "Cargo").
Proof.
  unfold item_type_str. repeat case_decide; intros [= <-]; [left | right]; done.
Qed.

(** X5: every row of [full_df] carries the name and the volume of an item
    of the market, on both of its sides, and the label "Item" for the type
    code 0 or "Cargo" for the code 1: the capacity model never meets
    another label. *)
Theorem collect_item_columns claim_id request item_list t :
  t ∈ collect claim_id request item_list ->
  exists item,
    item ∈ item_list /\
    itemName (sell (pair t)) = item_name item /\
    itemVolume (sell (pair t)) = item_volume item /\
    join_key (sell (pair t)) = join_key (buy (pair t)) /\
    ((item_type item = 0 /\ itemTypeStr (sell (pair t)) = "Item") \/
     (item_type item = 1 /\ itemTypeStr (sell (pair t)) = "Cargo")).
Proof.
  intros (item & ts & m & Hitem & Hts & _ & Ht)%collect_elem.
  apply matcher_elem in Ht as (_ & (Hs & _ & Hk)%merge_elem & _).
  destruct (normalize_item_columns _ _ _ _ Hs) as (Hn & Hl & Hv).
  exists item. split_and!; [done..|]. rewrite Hl.
  by apply item_type_str_cases.
Qed.

Lemma collect_item_columns_witness :
  deal Sample.plank_B ∈ collect Sample.home Sample.market Sample.item_list /\
  exists item,
    item ∈ Sample.item_list /\
    itemName (sell (pair (deal Sample.plank_B))) = item_name item /\
    itemVolume (sell (pair (deal Sample.plank_B))) = item_volume item /\
    join_key (sell (pair (deal Sample.plank_B)))
      = join_key (buy (pair (deal Sample.plank_B))) /\
    ((item_type item = 0 /\
      itemTypeStr (sell (pair (deal Sample.plank_B))) = "Item") \/
     (item_type item = 1 /\
      itemTypeStr (sell (pair (deal Sample.plank_B))) = "Cargo")).
Proof.
  split; [exact sample_first_row|].
  exact (collect_item_columns Sample.home Sample.market Sample.item_list
           (deal Sample.plank_B) sample_first_row).
Defined.

(* ===================================================================== *)
(** ** Further properties of the Distance Resolver                        *)
(* ===================================================================== *)

(** X6: the list of claims to query names each claim once, and names
    exactly the claims that stand on the buying or on the selling side of
    a row; when [full_df] has a row the home claim is among them, so it is
    queried like its partners. *)
Theorem claim_list_spec full_df :
  NoDup (claim_list full_df) /\
  (forall c, c ∈ claim_list full_df <->
     exists t, t ∈ full_df /\
       (buyClaimEntityId (pair t) = c \/ sellClaimEntityId (pair t) = c)) /\
  (forall claim_id request item_list,
     full_df = collect claim_id request item_list ->
     full_df <> [] -> claim_id ∈ claim_list full_df).
Proof.
  assert (forall c, c ∈ claim_list full_df <->
     exists t, t ∈ full_df /\
       (buyClaimEntityId (pair t) = c \/ sellClaimEntityId (pair t) = c))
    as Hel.
  { intros c. unfold claim_list.
    rewrite (proj2 (unique_spec _)), elem_of_app, !list_elem_of_fmap. split.
    - intros [(t & -> & Ht)|(t & -> & Ht)]; exists t; tauto.
    - intros (t & Ht & [<-|<-]); [left | right]; by exists t. }
  split_and!; [apply unique_spec | done |].
  intros claim_id request item_list -> Hne. apply Hel.
  destruct (collect claim_id request item_list) as [|t l] eqn:E; [done|].
  assert (t ∈ collect claim_id request item_list) as Ht by (rewrite E; left).
  exists t. split; [left|].
  apply collect_elem in Ht as (item & ts & m & _ & _ & _ & Ht).
  apply matcher_elem in Ht as (_ & _ & [?|?] & _); [by right | by left].
Qed.

(** X7: the dictionary of distances has an entry for a claim exactly when
    the claim is listed and its query succeeded, and the entry is the
    distance computed from that answer; the order of the list and
    repetitions in it do not matter. *)
Theorem resolve_entries X0 Z0 request claims id d :
  resolve X0 Z0 request claims !! id = Some d <->
  id ∈ claims /\ exists claim, request id = Some claim /\ d = dist X0 Z0 claim.
Proof.
  rewrite resolve_lookup. case_decide as Hin.
  - destruct (request id) as [claim|]; simpl; split.
    + intros [= <-]. eauto.
    + intros (_ & claim' & [= <-] & ->). done.
    + done.
    + by intros (_ & claim' & ? & _).
  - split; [done | tauto].
Qed.

(* ===================================================================== *)
(** ** Further properties of the Capacity Model                           *)
(* ===================================================================== *)

Lemma vehicle_row_None vehicle r :
  vehicle_row vehicle r = None <-> itemVolume (sell (pair (deal r))) = 0.
Proof. unfold vehicle_row, int_div. case_decide; simpl; by split. Qed.

Lemma rank_row_None r :
  rank_row r = None <-> itemVolume (sell (pair (deal r))) = 0.
Proof.
  unfold rank_row. destruct (mapM _ vehicle_capacity) as [cols|] eqn:E; simpl.
  - split; [done|]. intros Hzero. apply mapM_Some in E.
    unfold vehicle_capacity in E.
    apply Forall2_cons_inv_l in E as (? & ? & Hb & _ & _).
    apply bind_Some in Hb as (c & Hc & _).
    simpl in Hc. by rewrite (proj2 (vehicle_row_None _ r) Hzero) in Hc.
  - split; [|done]. intros _.
    apply mapM_None, Exists_exists in E as (v & _ & Hb).
    apply bind_None in Hb as [Hn|(c & _ & ?)]; [|done].
    by apply vehicle_row_None in Hn.
Qed.

(** X8: the enrichment of [full_df] raises in two cases only: the table has
    no row (the new columns are then never created), or a row has the item
    volume 0 (line 284 divides by it). *)
Theorem enrich_raises claim_id dist_dict full_df :
  enrich claim_id dist_dict full_df = None <->
  full_df = [] \/ exists t, t ∈ full_df /\ itemVolume (sell (pair t)) = 0.
Proof.
  unfold enrich. destruct full_df as [|t0 l]; [by split; [left|]|].
  rewrite mapM_None, Exists_exists. split.
  - intros (t & Ht & Hnone%rank_row_None). right. by exists t.
  - intros [?|(t & Ht & Hzero)]; [done|]. exists t. split; [done|].
    by apply rank_row_None.
Qed.

(** X9: the enrichment neither drops nor reorders nor duplicates a row:
    its result holds, row for row, the trades of [full_df] with the
    distance of line 235. *)
Theorem enrich_rows claim_id dist_dict full_df rows :
  enrich claim_id dist_dict full_df = Some rows ->
  base <$> rows = apply_distance claim_id dist_dict <$> full_df /\
  rows <> [].
Proof.
  intros Henrich. split.
  - apply enrich_mapM, mapM_Some in Henrich.
    induction Henrich as [|t rk l k Hrank _ IH]; [done|].
    rewrite !fmap_cons, IH. f_equal.
    by apply rank_row_shape in Hrank as (? & ? & ? & ? & -> & _).
  - intros ->. unfold enrich in Henrich. destruct full_df; [done|].
    apply mapM_Some in Henrich. inversion Henrich.
Qed.

Lemma enrich_rows_witness :
  enrich Sample.home Sample.dist_dict Sample.full_df = Some Sample.rows /\
  base <$> Sample.rows
    = apply_distance Sample.home Sample.dist_dict <$> Sample.full_df /\
  Sample.rows <> [].
Proof.
  split; [exact sample_enrich|].
  exact (enrich_rows Sample.home Sample.dist_dict Sample.full_df Sample.rows
           sample_enrich).
Defined.

Lemma vehicle_row_quantity vehicle r cols :
  vehicle_row vehicle r = Some cols ->
  Quantity cols
  = float64_column
      (Z.min (Trade_Quantity (deal r))
         (Z.quot (room vehicle (itemTypeStr (sell (pair (deal r)))))
                 (itemVolume (sell (pair (deal r)))))).
Proof.
  unfold vehicle_row, int_div. case_decide; [done|]. simpl. by intros [= <-].
Qed.

Lemma rank_row_quantities r rk :
  rank_row r = Some rk ->
  exists c1 c2 c3 c4,
    vehicles rk = [("Raft", c1); ("Skiff", c2);
                   ("Clipper", c3); ("Cargo Ship", c4)] /\
    Forall2 (fun v c =>
               Quantity c
               = float64_column
                   (Z.min (Trade_Quantity (deal r))
                      (Z.quot (room v.2 (itemTypeStr (sell (pair (deal r)))))
                              (itemVolume (sell (pair (deal r)))))))
            vehicle_capacity [c1; c2; c3; c4].
Proof.
  unfold rank_row. intros H.
  destruct (mapM _ vehicle_capacity) as [cols|] eqn:E; [|done].
  simpl in H. injection H as <-.
  apply mapM_Some in E. unfold vehicle_capacity in E |- *.
  repeat (apply Forall2_cons_inv_l in E as (? & ? & ? & E & ->)).
  apply Forall2_nil_inv_l in E as ->.
  repeat match goal with
  | H : _ ≫= _ = Some _ |- _ =>
      apply bind_Some in H as (? & ?%vehicle_row_quantity & [= <-])
  end.
  simpl. eexists _, _, _, _. split; [reflexivity|].
  repeat constructor; done.
Qed.

(** X10: for an item of positive volume and a trade quantity that the
    float64 column of line 285 holds exactly (one not below -2^53) a larger
    vehicle never carries less: the quantities of a row ascend from Raft to
    Skiff to Clipper to Cargo Ship, and none exceeds the trade quantity or
    606000 units. *)
Theorem vehicle_quantities_ascend r rk :
  rank_row r = Some rk ->
  0 < itemVolume (sell (pair (deal r))) ->
  - 2 ^ 53 <= Trade_Quantity (deal r) ->
  exists c1 c2 c3 c4,
    vehicles rk = [("Raft", c1); ("Skiff", c2);
                   ("Clipper", c3); ("Cargo Ship", c4)] /\
    Quantity c1 <= Quantity c2 /\ Quantity c2 <= Quantity c3 /\
    Quantity c3 <= Quantity c4 /\
    Quantity c4 <= Z.min (Trade_Quantity (deal r)) 606000.
Proof.
  intros (c1 & c2 & c3 & c4 & Hv & Hq)%rank_row_quantities Hvol Htq.
  exists c1, c2, c3, c4. split; [done|].
  unfold vehicle_capacity in Hq.
  repeat (apply Forall2_cons in Hq as [? Hq]). simpl in *.
  set (vol := itemVolume (sell (pair (deal r)))) in *.
  set (label := itemTypeStr (sell (pair (deal r)))) in *.
  assert (forall a b, 0 <= a <= b -> Z.quot a vol <= Z.quot b vol) as Hmono.
  { intros a b ?. apply Z.quot_le_mono; lia. }
  assert (forall a, 0 <= a <= 606000 -> 0 <= Z.quot a vol <= 606000)
    as Hbound.
  { intros a ?. rewrite Z.quot_div_nonneg by lia.
    split; [apply Z.div_pos; lia|]. apply Z.div_le_upper_bound; nia. }
  assert (forall a, 0 <= a <= 606000 ->
            float64_column (Z.min (Trade_Quantity (deal r)) (Z.quot a vol))
            = Z.min (Trade_Quantity (deal r)) (Z.quot a vol)) as Hexact.
  { intros a Ha. pose proof (Hbound a Ha).
    apply float64_column_exact. lia. }
  unfold room, base_item_qty, base_cargo_qty in *. simpl in *.
  repeat case_decide.
  - rewrite Hexact in * by lia.
    pose proof (Hmono (6000 * 6 + 6000 * 25) (6000 * 24 + 6000 * 25)
                  ltac:(lia)).
    pose proof (Hmono (6000 * 24 + 6000 * 25) (6000 * 30 + 6000 * 25)
                  ltac:(lia)).
    pose proof (Hbound (6000 * 30 + 6000 * 25) ltac:(lia)). lia.
  - rewrite Hexact in * by lia.
    pose proof (Hmono (60000 * 1 + 6000 * 1) (60000 * 4 + 6000 * 1)
                  ltac:(lia)).
    pose proof (Hmono (60000 * 4 + 6000 * 1) (60000 * 6 + 6000 * 1)
                  ltac:(lia)).
    pose proof (Hmono (60000 * 6 + 6000 * 1) (60000 * 10 + 6000 * 1)
                  ltac:(lia)).
    pose proof (Hbound (60000 * 10 + 6000 * 1) ltac:(lia)). lia.
  - rewrite Hexact in * by lia.
    pose proof (Hbound 0 ltac:(lia)). lia.
Qed.

Lemma freight_rank :
  rank_row Freight.timber_B
  = Some {| base := Freight.timber_B;
            vehicles := default [] (vehicles <$> rank_row Freight.timber_B) |}.
Proof. by vm_compute. Qed.

(** The timber: 11 on a Raft, 41 on a Skiff, 61 on a Clipper, and all 100
    on a Cargo Ship, which has room for 101. *)
Lemma vehicle_quantities_ascend_witness :
  0 < itemVolume (sell (pair (deal Freight.timber_B))) /\
  - 2 ^ 53 <= Trade_Quantity (deal Freight.timber_B) /\
  Quantity <$> (default [] (vehicles <$> rank_row Freight.timber_B)).*2
  = [11; 41; 61; 100] /\
  exists c1 c2 c3 c4,
    default [] (vehicles <$> rank_row Freight.timber_B)
      = [("Raft", c1); ("Skiff", c2); ("Clipper", c3); ("Cargo Ship", c4)] /\
    Quantity c1 <= Quantity c2 /\ Quantity c2 <= Quantity c3 /\
    Quantity c3 <= Quantity c4 /\
    Quantity c4 <= Z.min (Trade_Quantity (deal Freight.timber_B)) 606000.
Proof.
  assert (- 2 ^ 53 <= Trade_Quantity (deal Freight.timber_B)) as Htq
    by (by vm_compute).
  split; [reflexivity|]. split; [exact Htq|]. split; [by vm_compute|].
  exact (vehicle_quantities_ascend Freight.timber_B _ freight_rank eq_refl
           Htq).
Defined.

(* ===================================================================== *)
(** ** Further properties of the Report Assembler                         *)
(* ===================================================================== *)

Lemma zero_distance_incomplete r rk q :
  rank_row r = Some rk -> Distance r = Finite q -> Qeq_bool q 0 = true ->
  ~ complete_row (display rk).
Proof.
  intros Hrank Hq Hzero Hc.
  destruct (display_columns _ _ Hrank) as (x & _ & _ & [n Hn] & _ & _ & Hfin).
  destruct (Hfin Hc) as [_ Hx]. rewrite Hn, Hq in Hx.
  by rewrite truediv_zero in Hx.
Qed.

(** X11: a trade of the home claim with itself is not in the report: its
    distance is looked up under the home claim, which is 0 where the
    claim's record gives the home coordinates and infinite where its query
    failed, and either way the row is dropped. *)
Theorem self_trade_dropped X0 Z0 request claim_id full_df rows final t :
  enrich claim_id (resolve X0 Z0 request (claim_list full_df)) full_df
    = Some rows ->
  report rows final ->
  t ∈ full_df ->
  buyClaimEntityId (pair t) = claim_id ->
  sellClaimEntityId (pair t) = claim_id ->
  (forall claim, request claim_id = Some claim ->
     default 0 (locationX claim) = X0 /\ default 0 (locationZ claim) = Z0) ->
  exists rk, rk ∈ rows /\ deal (base rk) = t /\ display rk ∉ final.
Proof.
  intros Henrich (sorted & _ & ->) Ht Hbuy Hsell Hhome.
  destruct (enrich_total _ _ _ _ _ Henrich Ht) as (rk & Hrk & Hrank).
  exists rk. split; [done|]. split.
  { apply rank_row_shape in Hrank as (? & ? & ? & ? & -> & _). done. }
  rewrite finish_filter. intros [Hc _]%list_elem_of_filter.
  assert (target_claim claim_id t = claim_id) as Htarget.
  { unfold target_claim. by rewrite decide_True. }
  pose proof (target_listed claim_id full_df t Ht) as Hlisted.
  rewrite Htarget in Hlisted.
  destruct (request claim_id) as [claim|] eqn:Hreq.
  - destruct (Hhome claim eq_refl) as [HX HZ].
    eapply (zero_distance_incomplete _ _ (round2_sqrt_div3 0) Hrank);
      [|reflexivity|done].
    simpl. rewrite Htarget, resolve_lookup, decide_True, Hreq by done.
    simpl. unfold dist. rewrite HX, HZ. do 2 f_equal. lia.
  - destruct (display_columns _ _ Hrank) as (x & _ & _ & _ & _ & _ & Hfin).
    destruct (Hfin Hc) as [Hdist _]. simpl in Hdist.
    by rewrite Htarget, resolve_lookup, decide_True, Hreq in Hdist.
Qed.

Lemma self_trade_enrich :
  enrich Sample.home
    (resolve 0 0 Sample.claims (claim_list SelfTrade.full_df))
    SelfTrade.full_df = Some SelfTrade.rows.
Proof. by vm_compute. Qed.

Lemma self_trade_report : report SelfTrade.rows [].
Proof.
  exists (map display SelfTrade.rows). split; [split|].
  - done.
  - vm_compute. descending.
  - by vm_compute.
Qed.

Lemma self_trade_dropped_witness :
  enrich Sample.home
    (resolve 0 0 Sample.claims (claim_list SelfTrade.full_df))
    SelfTrade.full_df = Some SelfTrade.rows /\
  report SelfTrade.rows [] /\
  exists t,
    t ∈ SelfTrade.full_df /\
    buyClaimEntityId (pair t) = Sample.home /\
    sellClaimEntityId (pair t) = Sample.home /\
    exists rk, rk ∈ SelfTrade.rows /\ deal (base rk) = t /\ display rk ∉ [].
Proof.
  split; [exact self_trade_enrich|]. split; [exact self_trade_report|].
  destruct SelfTrade.full_df as [|t l] eqn:E; [by vm_compute in E|].
  assert (t ∈ t :: l) as Ht by left.
  assert (buyClaimEntityId (pair t) = Sample.home) as Hbuy.
  { vm_compute in E. by simplify_eq. }
  assert (sellClaimEntityId (pair t) = Sample.home) as Hsell.
  { vm_compute in E. by simplify_eq. }
  exists t. split; [exact Ht|]. split; [exact Hbuy|]. split; [exact Hsell|].
  rewrite <- E in Ht.
  refine (self_trade_dropped 0 0 Sample.claims Sample.home SelfTrade.full_df
            SelfTrade.rows [] t self_trade_enrich self_trade_report
            Ht Hbuy Hsell _).
  intros claim Hclaim. vm_compute in Hclaim. by simplify_eq.
Defined.

Lemma filter_idemp {A} (P : A -> Prop) `{forall x, Decision (P x)} (l : list A) :
  filter P (filter P l) = filter P l.
Proof.
  induction l as [|x l IH]; [done|]. rewrite filter_cons.
  case_decide; [|done]. rewrite filter_cons, decide_True by done.
  by rewrite IH.
Qed.

(** X12: lines 307-309 only remove rows: their result is the table with
    the incomplete rows taken out, in the same order; a table without a
    missing or infinite value is left as it is, and applying them a second
    time changes nothing. *)
Theorem finish_idempotent table :
  sublist (finish table) table /\
  (Forall complete_row table -> finish table = table) /\
  finish (finish table) = finish table.
Proof.
  rewrite !finish_filter. split_and!.
  - apply sublist_filter.
  - intros Hall. induction Hall as [|r l Hr _ IH]; [done|].
    by rewrite filter_cons, decide_True, IH.
  - apply filter_idemp.
Qed.

Lemma unique_length_le {A} `{EqDecision A} (l : list A) :
  (length (unique l) <= length l)%nat.
Proof.
  induction l as [|x l IH] using rev_ind; [done|].
  rewrite unique_snoc, length_app. simpl.
  case_decide; [lia|]. rewrite length_app. simpl. lia.
Qed.

Lemma unique_length_same {A} `{EqDecision A} (l1 l2 : list A) :
  (forall x, x ∈ l1 <-> x ∈ l2) -> length (unique l1) = length (unique l2).
Proof.
  intros Hel. apply Permutation_length.
  apply NoDup_Permutation; [apply unique_spec..|].
  intros x. by rewrite !(proj2 (unique_spec _)).
Qed.

Lemma strings_of_perm name (t1 t2 : list row) x :
  t1 ≡ₚ t2 -> x ∈ strings_of name t1 <-> x ∈ strings_of name t2.
Proof.
  intros Hperm. rewrite !strings_of_elem.
  split; intros (r & Hr & Hc); exists r; split; try done.
  - by rewrite <- Hperm.
  - by rewrite Hperm.
Qed.

(** X13: the sort decides the order of the report and nothing else: two
    reports of one table hold the same rows, each as often, and give the
    same two counts. *)
Theorem report_up_to_order rows final1 final2 :
  report rows final1 -> report rows final2 ->
  final1 ≡ₚ final2 /\
  claim_N final1 = claim_N final2 /\ item_N final1 = item_N final2.
Proof.
  intros (s1 & [Hp1 _] & ->) (s2 & [Hp2 _] & ->).
  assert (finish s1 ≡ₚ finish s2) as Hperm.
  { rewrite !finish_filter. apply filter_Permutation.
    by rewrite <- Hp1, <- Hp2. }
  split; [done|]. split.
  - unfold claim_N. apply unique_length_same. intros x.
    rewrite !elem_of_app.
    by rewrite (strings_of_perm "Buying Claim" _ _ x Hperm),
               (strings_of_perm "Selling Claim" _ _ x Hperm).
  - unfold item_N. apply unique_length_same. intros x.
    by apply strings_of_perm.
Qed.

Lemma sample_report' : report Sample.rows (finish Sample.sorted').
Proof. exists Sample.sorted'. split; [apply sample_sorted' | done]. Qed.

Lemma report_up_to_order_witness :
  report Sample.rows Sample.final /\
  report Sample.rows (finish Sample.sorted') /\
  Sample.final <> finish Sample.sorted' /\
  Sample.final ≡ₚ finish Sample.sorted' /\
  claim_N Sample.final = claim_N (finish Sample.sorted') /\
  item_N Sample.final = item_N (finish Sample.sorted').
Proof.
  split; [exact sample_report|]. split; [exact sample_report'|].
  split; [by vm_compute|].
  exact (report_up_to_order Sample.rows Sample.final (finish Sample.sorted')
           sample_report sample_report').
Defined.

(* ===================================================================== *)
(** ** The upload                                                         *)
(* ===================================================================== *)

Lemma display_header r rk :
  rank_row r = Some rk ->
  (display rk).*1 = report_columns /\
  exists s, column "Item" (display rk) = Some (Str s).
Proof.
  intros (c1 & c2 & c3 & c4 & -> & _)%rank_row_shape.
  rewrite display_cells. split; [reflexivity | by eexists].
Qed.

Lemma strings_of_length name (table : list row) :
  (forall r, r ∈ table -> exists s, column name r = Some (Str s)) ->
  length (strings_of name table) = length table.
Proof.
  unfold strings_of. induction table as [|r table IH]; intros Hcol; [done|].
  rewrite bind_cons, length_app, IH by (intros; apply Hcol; by right).
  destruct (Hcol r) as [s ->]; [left | done].
Qed.

Lemma unique_nonempty {A} `{EqDecision A} (l : list A) :
  l <> [] -> (1 <= length (unique l))%nat.
Proof.
  destruct l as [|x l]; [done|]. intros _.
  assert (x ∈ unique (x :: l)) as Hx by (apply unique_spec; left).
  destruct (unique (x :: l)); [by apply elem_of_nil in Hx | simpl; lia].
Qed.

(** X14: what is uploaded.  With an empty report nothing is written and
    the warning is logged; otherwise the sheet gets the 25 column names of
    the report as its header and one line of 25 values for each row, and
    the two counts lie between 1 and the number of rows (items) and
    between 1 and twice that number (claims). *)
Theorem publish_sheet claim_id dist_dict full_df rows final :
  enrich claim_id dist_dict full_df = Some rows ->
  report rows final ->
  (final = [] /\ publish final = EmptyDataset) \/
  (exists D14 G14 values,
     publish final = Uploaded D14 G14 report_columns values /\
     length values = length final /\
     Forall (fun line => length line = 25%nat) values /\
     (1 <= D14 <= length final)%nat /\
     (1 <= G14 <= 2 * length final)%nat).
Proof.
  intros Henrich Hreport.
  assert (forall r, r ∈ final ->
            r.*1 = report_columns /\
            (exists s, column "Item" r = Some (Str s)) /\
            (exists s, column "Buying Claim" r = Some (Str s)) /\
            (exists s, column "Selling Claim" r = Some (Str s))) as Hrow.
  { intros r Hr.
    destruct (report_elem _ _ _ _ _ _ Henrich Hreport Hr)
      as (_ & t & rk & _ & _ & Hrank & ->).
    destruct (display_header _ _ Hrank) as [Hh Hi].
    destruct (display_columns _ _ Hrank) as (x & _ & _ & _ & Hb & Hs & _).
    split_and!; [done | done | by eexists | by eexists]. }
  destruct final as [|r0 final]; [by left|]. right.
  set (table := r0 :: final) in *.
  exists (item_N table), (claim_N table), (map (fmap snd) table).
  split_and!.
  - change (publish table)
      with (Uploaded (item_N table) (claim_N table) r0.*1
              (map (fmap snd) table)).
    by rewrite (proj1 (Hrow r0 ltac:(left))).
  - by rewrite length_map.
  - apply Forall_forall. intros line (r & -> & Hr)%list_elem_of_fmap.
    rewrite length_fmap, <- (length_fmap fst), (proj1 (Hrow r Hr)). done.
  - unfold item_N. apply unique_nonempty.
    intros Hnil%(f_equal length).
    rewrite strings_of_length in Hnil by (intros; by apply Hrow). done.
  - unfold item_N. etrans; [apply unique_length_le|].
    by rewrite strings_of_length by (intros; by apply Hrow).
  - unfold claim_N. apply unique_nonempty.
    intros Hnil%(f_equal length). rewrite length_app in Hnil.
    rewrite strings_of_length in Hnil by (intros; by apply Hrow). done.
  - unfold claim_N. etrans; [apply unique_length_le|].
    rewrite length_app, !strings_of_length by (intros; by apply Hrow). lia.
Qed.

Lemma publish_sheet_witness :
  enrich Sample.home Sample.dist_dict Sample.full_df = Some Sample.rows /\
  report Sample.rows Sample.final /\
  ((Sample.final = [] /\ publish Sample.final = EmptyDataset) \/
   (exists D14 G14 values,
      publish Sample.final = Uploaded D14 G14 report_columns values /\
      length values = length Sample.final /\
      Forall (fun line => length line = 25%nat) values /\
      (1 <= D14 <= length Sample.final)%nat /\
      (1 <= G14 <= 2 * length Sample.final)%nat)).
Proof.
  split; [exact sample_enrich|]. split; [exact sample_report|].
  exact (publish_sheet Sample.home Sample.dist_dict Sample.full_df
           Sample.rows Sample.final sample_enrich sample_report).
Defined.

(* ===================================================================== *)
(** ** The run time                                                       *)
(* ===================================================================== *)

Lemma timedelta_seconds_range us : 0 <= timedelta_seconds us < 86400.
Proof. unfold timedelta_seconds. apply Z.mod_pos_bound. lia. Qed.

Lemma timedelta_seconds_days us days :
  timedelta_seconds (us + days * 86400000000) = timedelta_seconds us.
Proof.
  unfold timedelta_seconds.
  replace (us + days * 86400000000) with (us + (days * 86400) * 1000000)
    by lia.
  rewrite Z.div_add by lia. apply Z.mod_add. lia.
Qed.

(** X15: the minutes written to G12 are those of the last, incomplete day
    of the run: they lie between 0 and 1440, are within half a minute of
    the seconds of that day, and do not change when the run lasts whole
    days longer. *)
Theorem t_diff_spec t_start t_end :
  0 <= t_diff t_start t_end <= 1440 /\
  60 * t_diff t_start t_end - 30
    <= timedelta_seconds (t_end - t_start)
    <= 60 * t_diff t_start t_end + 30 /\
  (forall days,
     t_diff t_start (t_end + days * 86400000000) = t_diff t_start t_end).
Proof.
  assert (60 * t_diff t_start t_end - 30
            <= timedelta_seconds (t_end - t_start)
            <= 60 * t_diff t_start t_end + 30) as Hclose.
  { unfold t_diff.
    destruct (rint_close (inject_Z (timedelta_seconds (t_end - t_start)) / 60))
      as [Hlo Hhi].
    set (n := rint _) in *. set (s := timedelta_seconds _) in *.
    unfold Qdiv in Hlo, Hhi. change (/ 60)%Q with (1 # 60)%Q in Hlo, Hhi.
    assert (inject_Z (60 * n - 30) <= inject_Z s)%Q as Hlo'.
    { unfold Zminus. rewrite inject_Z_plus, inject_Z_mult.
      change (inject_Z 60) with 60%Q.
      change (inject_Z (- (30))) with (- (30))%Q.
      revert Hlo Hhi. generalize (inject_Z n), (inject_Z s). intros a b.
      Lqa.lra. }
    assert (inject_Z s <= inject_Z (60 * n + 30))%Q as Hhi'.
    { rewrite inject_Z_plus, inject_Z_mult.
      change (inject_Z 60) with 60%Q. change (inject_Z 30) with 30%Q.
      revert Hlo Hhi. generalize (inject_Z n), (inject_Z s). intros a b.
      Lqa.lra. }
    rewrite <- Zle_Qle in Hlo', Hhi'. done. }
  pose proof (timedelta_seconds_range (t_end - t_start)).
  split; [lia|]. split; [exact Hclose|].
  intros days. unfold t_diff.
  replace (t_end + days * 86400000000 - t_start)
    with (t_end - t_start + days * 86400000000) by lia.
  by rewrite timedelta_seconds_days.
Qed.

(* ===================================================================== *)
(** ** Start-up                                                           *)
(* ===================================================================== *)

Lemma string_app_assoc a b c : (a +:+ b) +:+ c = a +:+ b +:+ c.
Proof.
  induction a as [|x a IH]; [done|].
  change (String x ((a +:+ b) +:+ c) = String x (a +:+ b +:+ c)).
  by rewrite IH.
Qed.

Lemma string_app_nil_r a : a +:+ EmptyString = a.
Proof.
  induction a as [|x a IH]; [done|].
  change (String x (a +:+ EmptyString) = String x a). by rewrite IH.
Qed.

Lemma string_drop_app a b : string_drop (String.length a) (a +:+ b) = b.
Proof.
  induction a as [|x a IH]; [by destruct b|].
  change (string_drop (String.length a) (a +:+ b) = b). exact IH.
Qed.

Lemma prefix_app sep s :
  String.prefix sep s = true <-> exists rest, s = sep +:+ rest.
Proof.
  revert s. induction sep as [|a sep IH]; intros s.
  - split; [intros _; by exists s | intros _; by destruct s].
  - destruct s as [|b s]; simpl.
    + split; [done | by intros [rest ?]].
    + destruct (ascii_dec a b) as [->|Hne].
      * rewrite IH. split; intros [rest Hrest]; exists rest.
        -- change (String b s = String b (sep +:+ rest)). by rewrite Hrest.
        -- change (String b s = String b (sep +:+ rest)) in Hrest.
           by injection Hrest.
      * split; [done|]. intros [rest Hrest].
        change (String b s = String a (sep +:+ rest)) in Hrest.
        by injection Hrest as -> _.
Qed.

Lemma split_from_skip sep k s :
  split_from sep k s = split_from sep 0 (string_drop k s).
Proof.
  revert k. induction s as [|c r IH]; intros [|k]; try done.
  simpl. apply IH.
Qed.

Lemma occurs_cons sep c s :
  occurs sep (String c s) ->
  String.prefix sep (String c s) = true \/ occurs sep s.
Proof.
  intros ([|x a] & b & Heq).
  - left. apply prefix_app. by exists b.
  - right. exists a, b.
    change (String c s = String x (a +:+ sep +:+ b)) in Heq.
    by injection Heq.
Qed.

(** The first piece of a split holds no separator and ends the string, or
    the separator follows it and the rest is split in turn. *)
Lemma split_from_spec sep s p ps :
  sep <> EmptyString ->
  split_from sep 0 s = (p, ps) ->
  ~ occurs sep p /\
  ((ps = [] /\ s = p) \/
   (exists s', s = p +:+ sep +:+ s' /\ ps = split sep s')).
Proof.
  intros Hsep. revert p ps. induction s as [|c r IH]; intros p ps.
  - intros [= <- <-]. split; [|by left].
    intros ([|x a] & b & Heq); [|done].
    destruct sep; [done | discriminate].
  - cbn [split_from]. destruct (String.prefix sep (String c r)) eqn:Epre.
    + intros [= <- <-]. split.
      { intros ([|x a] & b & Heq); [|done].
        destruct sep; [done | discriminate]. }
      right. apply prefix_app in Epre as [s' Hs'].
      exists s'. split; [done|].
      destruct sep as [|x sep]; [done|].
      change (String c r = String x (sep +:+ s')) in Hs'.
      injection Hs' as -> ->.
      cbn [String.length]. rewrite Nat.sub_succ, Nat.sub_0_r.
      rewrite split_from_skip, string_drop_app. unfold split.
      by destruct (split_from (String x sep) 0 s').
    + destruct (split_from sep 0 r) as [p' ps'] eqn:Er.
      intros [= <- <-].
      destruct (IH p' ps' eq_refl) as [Hno Hrest]. split.
      * intros [Hpre|Hocc]%occurs_cons; [|done].
        apply prefix_app in Hpre as [b Hb].
        assert (String.prefix sep (String c r) = true) as Habs; [|congruence].
        apply prefix_app.
        destruct Hrest as [[_ ->]|(s' & -> & _)].
        -- by exists b.
        -- exists (b +:+ sep +:+ s').
           change (String c (p' +:+ sep +:+ s'))
             with (String c p' +:+ sep +:+ s').
           by rewrite Hb, string_app_assoc.
      * destruct Hrest as [[-> ->]|(s' & -> & ->)]; [by left|].
        right. by exists s'.
Qed.

(** X16: the claim id of line 25 is the text between a "claims/" of the
    URL and the end of the URL or the next "claims/": it holds no
    "claims/" itself, nor does the part of the URL before it.  A URL
    without "claims/" has none, and line 25 raises. *)
Theorem claim_id_of_spec claim_url :
  (claim_id_of claim_url = None <-> ~ occurs "claims/" claim_url) /\
  (forall claim_id,
     claim_id_of claim_url = Some claim_id ->
     exists before_it after_it,
       claim_url = before_it +:+ "claims/" +:+ claim_id +:+ after_it /\
       ~ occurs "claims/" before_it /\
       ~ occurs "claims/" claim_id /\
       (after_it = EmptyString \/
        exists rest, after_it = "claims/" +:+ rest)).
Proof.
  unfold claim_id_of, split.
  destruct (split_from "claims/" 0 claim_url) as [p ps] eqn:E.
  destruct (split_from_spec "claims/" claim_url p ps ltac:(done) E)
    as [Hp [[-> ->]|(s' & -> & ->)]].
  - split; [done|]. intros claim_id. done.
  - unfold split. destruct (split_from "claims/" 0 s') as [q qs] eqn:E'.
    split.
    + split; [done|]. intros Hno. exfalso. apply Hno. by exists p, s'.
    + intros claim_id [= <-].
      destruct (split_from_spec "claims/" s' q qs ltac:(done) E')
        as [Hq [[_ ->]|(s'' & -> & _)]].
      * exists p, EmptyString. split_and!; [|done|done|by left].
        by rewrite string_app_nil_r.
      * exists p, ("claims/" +:+ s''). split_and!; [done..|].
        right. by exists s''.
Qed.

Lemma claim_id_of_absent claim_url :
  claim_id_of claim_url = None <-> ~ occurs "claims/" claim_url.
Proof.
  unfold claim_id_of, split.
  destruct (split_from "claims/" 0 claim_url) as [p ps] eqn:E.
  destruct (split_from_spec "claims/" claim_url p ps ltac:(done) E)
    as [Hp [[-> ->]|(s' & -> & ->)]]; [done|].
  unfold split. destruct (split_from "claims/" 0 s') as [q qs].
  split; [done|]. intros Hno. exfalso. apply Hno. by exists p, s'.
Qed.

Lemma claim_id_of_present claim_url claim_id :
  claim_id_of claim_url = Some claim_id -> occurs "claims/" claim_url.
Proof.
  unfold claim_id_of, split.
  destruct (split_from "claims/" 0 claim_url) as [p ps] eqn:E.
  destruct (split_from_spec "claims/" claim_url p ps ltac:(done) E)
    as [Hp [[-> ->]|(s' & -> & ->)]]; [done|].
  intros _. by exists p, s'.
Qed.

Lemma truthy_Some value s :
  truthy value = Some s <-> value = Some s /\ s <> EmptyString.
Proof.
  unfold truthy. destruct value as [v|]; [|by split; [|intros []]].
  case_decide as Hv; split.
  - done.
  - intros [[= ->] ?]. done.
  - intros [= ->]. done.
  - by intros [[= ->] _].
Qed.

(** X17: how the run starts.  It starts only with the three settings
    present and not empty, a CLAIM_URL that holds "claims/" and a
    THROTTLE_RATE that converts to a number.  A CLAIM_URL without
    "claims/" raises, whatever the other two settings are.  A missing or
    empty setting is reported only when the settings before it, in the
    order CLAIM_URL, THROTTLE_RATE, SPREADSHEET_NAME, are present. *)
Theorem start_outcomes {T} (float : string -> option T) env :
  (forall claim_id throttle_rate name,
     start float env = Ready claim_id throttle_rate name ->
     exists url raw,
       CLAIM_URL env = Some url /\ occurs "claims/" url /\
       claim_id_of url = Some claim_id /\
       THROTTLE_RATE env = Some raw /\ raw <> EmptyString /\
       float raw = Some throttle_rate /\
       SPREADSHEET_NAME env = Some name /\ name <> EmptyString) /\
  (forall url,
     CLAIM_URL env = Some url -> url <> EmptyString ->
     ~ occurs "claims/" url -> start float env = Raises) /\
  (forall entry,
     start float env = Missing entry ->
     (entry = "CLAIM_URL" /\ truthy (CLAIM_URL env) = None) \/
     (entry = "THROTTLE_RATE" /\ truthy (THROTTLE_RATE env) = None /\
      is_Some (truthy (CLAIM_URL env))) \/
     (entry = "SPREADSHEET_NAME" /\ truthy (SPREADSHEET_NAME env) = None /\
      is_Some (truthy (CLAIM_URL env)) /\
      is_Some (truthy (THROTTLE_RATE env)))).
Proof.
  unfold start. split_and!.
  - intros claim_id throttle_rate name.
    destruct (truthy (CLAIM_URL env)) as [url|] eqn:Eurl; [|done].
    destruct (claim_id_of url) as [id|] eqn:Eid; [|done].
    destruct (truthy (THROTTLE_RATE env)) as [raw|] eqn:Eraw; [|done].
    destruct (float raw) as [rate|] eqn:Erate; [|done].
    destruct (truthy (SPREADSHEET_NAME env)) as [sheet|] eqn:Esheet; [|done].
    intros [= <- <- <-].
    apply truthy_Some in Eurl as [Hurl _], Eraw as [Hraw ?],
      Esheet as [Hsheet ?].
    exists url, raw. split_and!; try done.
    by apply (claim_id_of_present url id).
  - intros url Hurl Hne Hno.
    rewrite (proj2 (truthy_Some _ url) (conj Hurl Hne)).
    by rewrite (proj2 (claim_id_of_absent url) Hno).
  - intros entry.
    destruct (truthy (CLAIM_URL env)) as [url|] eqn:Eurl;
      [|intros [= <-]; by left].
    destruct (claim_id_of url) as [id|]; [|done].
    destruct (truthy (THROTTLE_RATE env)) as [raw|] eqn:Eraw;
      [|intros [= <-]; right; left; by eauto].
    destruct (float raw) as [rate|]; [|done].
    destruct (truthy (SPREADSHEET_NAME env)) as [sheet|] eqn:Esheet; [done|].
    intros [= <-]. right. right. by eauto.
Qed.

(** The claim id of a claim page, and of an address without one. *)
Example claim_id_of_page :
  claim_id_of "https://bitjita.com/claims/360287970201931083"
  = Some "360287970201931083" /\
  claim_id_of "https://bitjita.com/market" = None.
Proof. split; reflexivity. Qed.

Lemma truediv_finite n q :
  Qeq_bool q 0 = false -> is_finite (np_round2 (truediv n (Finite q))) = true.
Proof. unfold truediv. by intros ->. Qed.

(** X18: the completeness filter drops nothing else: a row whose distance
    is a number other than 0 is in the report, whatever values its other
    columns hold. *)
Theorem report_keeps claim_id dist_dict full_df rows final rk q :
  enrich claim_id dist_dict full_df = Some rows ->
  report rows final ->
  rk ∈ rows ->
  Distance (base rk) = Finite q ->
  ~ (q == 0)%Q ->
  display rk ∈ final.
Proof.
  intros Henrich (sorted & [Hperm _] & ->) Hrk Hq Hnz.
  rewrite finish_filter. apply list_elem_of_filter. split.
  - destruct (enrich_elem _ _ _ _ _ Henrich Hrk) as (t & _ & Hrank).
    apply rank_row_shape in Hrank as (c1 & c2 & c3 & c4 & -> & Hc).
    cbn [base] in Hq. rewrite Hq in Hc.
    assert (Qeq_bool q 0 = false) as Hb.
    { destruct (Qeq_bool q 0) eqn:E; [|done]. by apply Qeq_bool_iff in E. }
    rewrite !Forall_cons in Hc. destruct Hc as (H1 & H2 & H3 & H4 & _).
    rewrite display_cells. unfold complete_row.
    repeat (apply Forall_cons; split); try apply Forall_nil;
      cbn [snd complete];
      rewrite ?Hq, ?H1, ?H2, ?H3, ?H4; try done; by apply truediv_finite.
  - rewrite <- Hperm. apply list_elem_of_fmap. by exists rk.
Qed.

Lemma report_keeps_witness :
  enrich Sample.home Sample.dist_dict Sample.full_df = Some Sample.rows /\
  report Sample.rows Sample.final /\
  exists rk,
    rk ∈ Sample.rows /\ base rk = Sample.plank_B /\
    Distance (base rk) = Finite (to_float64 (1667 # 100)) /\
    ~ (to_float64 (1667 # 100) == 0)%Q /\
    display rk ∈ Sample.final.
Proof.
  split; [exact sample_enrich|]. split; [exact sample_report|].
  destruct Sample.rows as [|rk l] eqn:E; [by vm_compute in E|].
  assert (rk ∈ rk :: l) as Hrk by left.
  assert (base rk = Sample.plank_B) as Hbase.
  { vm_compute in E. injection E as <- _. by vm_compute. }
  assert (Distance (base rk) = Finite (to_float64 (1667 # 100))) as Hq.
  { rewrite Hbase. by vm_compute. }
  assert (~ (to_float64 (1667 # 100) == 0)%Q) as Hnz by (by vm_compute).
  exists rk. split; [exact Hrk|]. split; [exact Hbase|].
  split; [exact Hq|]. split; [exact Hnz|].
  rewrite <- E in Hrk.
  exact (report_keeps Sample.home Sample.dist_dict Sample.full_df Sample.rows
           Sample.final rk (to_float64 (1667 # 100)) sample_enrich sample_report
           Hrk Hq Hnz).
Defined.
